(** * Verification of the codebase review script

    A shallow embedding of [.github/scripts/claude-review.py]: the file
    batcher, the extraction of findings from a model response, the severity
    partition of the issue reporter, the summary report, and the exit status
    of the whole process.

    Python integers are unbounded and are modelled by [Z]; [//] is floor
    division, which is [Z.div] for a positive divisor.  A [str] is modelled by
    [string], one character per code point, so [len] is [String.length]. *)

From Stdlib Require Import String Ascii.
From Stdlib Require Import ZArith List Bool Lia Sorted Permutation.
Import ListNotations.
Local Open Scope string_scope.
Local Open Scope list_scope.
Local Open Scope Z_scope.

(** ** Data model *)

(** A collected file: the dict [{'path': ..., 'content': ...}] built by
    [get_codebase_files]. *)
Record SourceFile := mkFile { path : string; content : string }.

(** [len(s)] *)
Definition len (s : string) : Z := Z.of_nat (String.length s).

(** ** The batcher: [chunk_files_for_review] *)

Module Batcher.

(** The three local variables of the loop. *)
Record loop_state := mkLoop {
  chunks : list (list SourceFile);
  current_chunk : list SourceFile;
  current_size : Z
}.

(** [file_tokens = len(file['content']) // 4] *)
Definition file_tokens (file : SourceFile) : Z := len (content file) / 4.

(** [if current_chunk: chunks.append(current_chunk)] *)
Definition flush (chunks : list (list SourceFile)) (current_chunk : list SourceFile)
  : list (list SourceFile) :=
  match current_chunk with
  | [] => chunks
  | _ :: _ => chunks ++ [current_chunk]
  end.

(** One iteration of [for file in files]. *)
Definition loop_body (max_tokens : Z) (st : loop_state) (file : SourceFile) : loop_state :=
  if current_size st + file_tokens file >? max_tokens then
    {| chunks := flush (chunks st) (current_chunk st);
       current_chunk := [file];
       current_size := file_tokens file |}
  else
    {| chunks := chunks st;
       current_chunk := current_chunk st ++ [file];
       current_size := current_size st + file_tokens file |}.

Definition loop_init : loop_state :=
  {| chunks := []; current_chunk := []; current_size := 0 |}.

(** The state when the [for] loop has run over [files]. *)
Definition loop_run (max_tokens : Z) (files : list SourceFile) : loop_state :=
  fold_left (loop_body max_tokens) files loop_init.

Definition chunk_files_for_review (files : list SourceFile) (max_tokens : Z)
  : list (list SourceFile) :=
  let st := loop_run max_tokens files in
  flush (chunks st) (current_chunk st).

(** The default of the [max_tokens] parameter. *)
Definition default_max_tokens : Z := 50000.

(** The size the batcher attributes to a batch: the sum of the per-file
    estimates it has added up in [current_size]. *)
Definition batch_tokens (batch : list SourceFile) : Z :=
  fold_right (fun f acc => file_tokens f + acc) 0 batch.

(** [ceil(n / 4)], the quantity named by the specification. *)
Definition ceil_div4 (n : Z) : Z := (n + 3) / 4.

(** The invariant of the loop, for a state reached from input [seen]. *)
Record loop_inv (max_tokens : Z) (seen : list SourceFile) (st : loop_state) : Prop := {
  inv_concat : concat (chunks st) ++ current_chunk st = seen;
  inv_size : current_size st = batch_tokens (current_chunk st);
  inv_nonempty : Forall (fun b => b <> []) (chunks st);
  inv_closed : Forall (fun b => (2 <= length b)%nat -> batch_tokens b <= max_tokens) (chunks st);
  inv_open : (2 <= length (current_chunk st))%nat -> current_size st <= max_tokens;
  inv_big : forall f, In f seen -> file_tokens f > max_tokens ->
              In [f] (chunks st) \/ current_chunk st = [f]
}.

(** A file whose content is [n] characters long. *)
Fixpoint filler (n : nat) : string :=
  match n with
  | O => EmptyString
  | S k => String "x"%char (filler k)
  end.

Definition file_of_length (name : string) (n : Z) : SourceFile :=
  {| path := name; content := filler (Z.to_nat n) |}.

End Batcher.

Local Set Warnings "-register-all".

(** ** Decoded JSON and Python values

    What [json.loads] returns.  An object is an association list in
    insertion order; [json.loads] never yields the same key twice.  A number
    is an integer: the script does no arithmetic on decoded values and no
    statement below depends on a fractional one. *)
Inductive json : Type :=
| JNull
| JBool (b : bool)
| JNum (n : Z)
| JStr (s : string)
| JArr (items : list json)
| JObj (fields : list (string * json)).

(** A finding, as the script handles it: a [Dict[str, Any]]. *)
Definition dict := list (string * json).

(** [d.get(key)], with [None] for Python's [None]. *)
Fixpoint dict_get (d : dict) (key : string) : option json :=
  match d with
  | [] => None
  | (k, v) :: d' => if String.eqb k key then Some v else dict_get d' key
  end.

(** [d.get(key, default)] *)
Definition dict_get_or (d : dict) (key : string) (default : json) : json :=
  match dict_get d key with
  | Some v => v
  | None => default
  end.

(** [d.get(key) == s] for a string literal [s]: only a [str] equals a [str]. *)
Definition get_eq_str (d : dict) (key s : string) : bool :=
  match dict_get d key with
  | Some (JStr v) => String.eqb v s
  | _ => false
  end.

(** [d.get(key) in [s1, s2, ...]] *)
Definition get_in_strs (d : dict) (key : string) (l : list string) : bool :=
  existsb (get_eq_str d key) l.

(** Lists and dicts are not hashable and cannot be dict keys. *)
Definition hashable (v : json) : bool :=
  match v with
  | JArr _ | JObj _ => false
  | _ => true
  end.

(** Equality of dict keys: Python's [==] on hashable values, under which
    [True == 1] and [False == 0]. *)
Definition key_eqb (a b : json) : bool :=
  match a, b with
  | JNull, JNull => true
  | JBool x, JBool y => Bool.eqb x y
  | JNum x, JNum y => x =? y
  | JBool x, JNum y | JNum y, JBool x => (if x then 1 else 0) =? y
  | JStr x, JStr y => String.eqb x y
  | _, _ => false
  end.

(** ** Exceptions *)

Inductive exn :=
  ValueError | KeyError | TypeError | AttributeError | JSONDecodeError | RemoteError | OSError.

Inductive result (A : Type) : Type :=
| Ok (a : A)
| Raise (e : exn).
Arguments Ok {A} a.
Arguments Raise {A} e.

(** [d[key]] *)
Definition dict_item (d : dict) (key : string) : result json :=
  match dict_get d key with
  | Some v => Ok v
  | None => Raise KeyError
  end.

(** [i.get(...)] on every element: a value that is not a dict has no [get]. *)
Fixpoint as_dicts (l : list json) : result (list dict) :=
  match l with
  | [] => Ok []
  | JObj d :: l' =>
      match as_dicts l' with
      | Ok ds => Ok (d :: ds)
      | Raise e => Raise e
      end
  | _ :: _ => Raise AttributeError
  end.

(** ** The issue reporter: the severity groups of [create_github_issues] *)

Definition critical_issues (issues : list dict) : list dict :=
  filter (fun i => get_eq_str i "severity" "critical") issues.

Definition high_issues (issues : list dict) : list dict :=
  filter (fun i => get_eq_str i "severity" "high") issues.

Definition other_issues (issues : list dict) : list dict :=
  filter (fun i => get_in_strs i "severity" ["medium"; "low"]) issues.

(** The severity is one of the four the data model names. *)
Definition recognised (i : dict) : bool :=
  get_in_strs i "severity" ["critical"; "high"; "medium"; "low"].

(** ** The summary report: the figures of [generate_summary_report]

    The record holds the values the report text interpolates, in the order
    of the text; the layout of the text and the letter case given to a
    category by [title()] are not part of it. *)
Record report := mkReport {
  total : Z;
  n_critical : Z;
  n_high : Z;
  n_medium : Z;
  n_low : Z;
  by_category : list (string * Z)
}.

(** [len([i for i in all_issues if i.get('severity') == s])] *)
Definition severity_count (all_issues : list dict) (s : string) : Z :=
  Z.of_nat (length (filter (fun i => get_eq_str i "severity" s) all_issues)).

(** [categories[cat] = categories.get(cat, 0) + 1] on an insertion-ordered
    dict: an entry that exists keeps its place. *)
Fixpoint incr (categories : list (json * Z)) (cat : json) : list (json * Z) :=
  match categories with
  | [] => [(cat, 0 + 1)]
  | (k, n) :: rest =>
      if key_eqb k cat then (k, n + 1) :: rest else (k, n) :: incr rest cat
  end.

(** The loop that fills [categories]; an unhashable category raises. *)
Fixpoint count_categories (all_issues : list dict) (categories : list (json * Z))
  : result (list (json * Z)) :=
  match all_issues with
  | [] => Ok categories
  | issue :: rest =>
      let cat := dict_get_or issue "category" (JStr "general") in
      if hashable cat then count_categories rest (incr categories cat)
      else Raise TypeError
  end.

(** [sorted(items, key=lambda x: x[1], reverse=True)]: descending by count,
    entries of equal count in their original order. *)
Fixpoint insert_desc {K : Type} (x : K * Z) (l : list (K * Z)) : list (K * Z) :=
  match l with
  | [] => [x]
  | y :: l' => if snd y >? snd x then y :: insert_desc x l' else x :: y :: l'
  end.

Definition sorted_desc {K : Type} (l : list (K * Z)) : list (K * Z) :=
  fold_right insert_desc [] l.

(** The lines of the category section; [cat.title()] needs a [str].  A
    line keeps the category as it was counted; the text of the report shows
    [cat.title()] of it. *)
Fixpoint category_lines (items : list (json * Z)) : result (list (string * Z)) :=
  match items with
  | [] => Ok []
  | (JStr cat, count) :: rest =>
      match category_lines rest with
      | Ok lines => Ok ((cat, count) :: lines)
      | Raise e => Raise e
      end
  | _ :: _ => Raise AttributeError
  end.

(** The report, up to the point where it is written out. *)
Definition summary_report (all_issues : list dict) : result report :=
  match count_categories all_issues [] with
  | Raise e => Raise e
  | Ok categories =>
      match category_lines (sorted_desc categories) with
      | Raise e => Raise e
      | Ok lines =>
          Ok {| total := Z.of_nat (length all_issues);
                n_critical := severity_count all_issues "critical";
                n_high := severity_count all_issues "high";
                n_medium := severity_count all_issues "medium";
                n_low := severity_count all_issues "low";
                by_category := lines |}
      end
  end.

(** The category of a finding is a string, or is absent. *)
Definition category_is_str (i : dict) : bool :=
  match dict_get i "category" with
  | None | Some (JStr _) => true
  | Some _ => false
  end.

(** The keys of the counting dict are strings when the categories are. *)
Definition str_key (x : json * Z) : Prop := exists s, fst x = JStr s.

(** The same for the grouping dict of the summary issue. *)
Definition str_group (x : json * list dict) : Prop := exists s, fst x = JStr s.

Definition sum_counts {K : Type} (l : list (K * Z)) : Z :=
  fold_right (fun x acc => snd x + acc) 0 l.

(** ** The outside world

    What the script reads from its environment and the answers of the
    services it calls.  They are inputs of the model: the file tree, the
    language-model service and the issue tracker are not code of the
    script. *)

(** The outcome of [client.messages.create] followed by
    [response.content[0].text]. *)
Inductive api_outcome :=
| ApiRaises
| ApiText (response_text : string).

Record world := mkWorld {
  env_anthropic_api_key : option string;
  env_github_token : option string;
  env_review_type : option string;
  env_github_repository : option string;
  (** whether the clients are built and [get_repo] answers *)
  connects : bool;
  (** the files [get_codebase_files] collects *)
  codebase : list SourceFile;
  (** the outcome of the request for the batch of a given index *)
  api : nat -> api_outcome;
  (** [json.loads]; [None] is a [JSONDecodeError] *)
  json_loads : string -> option json;
  (** whether [review_summary.md] can be written *)
  report_writable : bool;
  (** whether the tracker call of a given rank succeeds *)
  tracker_ok : nat -> bool
}.

(** A label; the two interpolated ones keep the value interpolated,
    [f"severity:{v}"] and [f"category:{v}"]. *)
Inductive label :=
| SeverityLabel (v : json)
| CategoryLabel (v : json)
| NamedLabel (name : string).

(** What an issue is created from: a finding with its title, or the
    summary with its count and its sections (category, number of findings,
    the findings listed). *)
Inductive issue_text :=
| FindingText (title : json) (issue : dict)
| SummaryText (count : Z) (sections : list (string * Z * list dict)).

(** The calls the script makes to the outside, in order. *)
Inductive event :=
| Connect (repo_name : string)
| Walk
| Request (review_type : string) (files_chunk : list SourceFile)
| Sleep (seconds : Z)
| WriteReport (r : report)
| GetLabel (l : label)
| CreateLabel (l : label) (color : string)
| CreateIssue (text : issue_text) (labels : list label).

Record state := mkState {
  trace : list event;
  tracker_calls : nat
}.

Definition initial_state : state := {| trace := []; tracker_calls := 0 |}.

(** ** A monad for calls and exceptions

    A computation maps the state to an outcome and the state reached; the
    calls made before an exception stay in the trace. *)
Definition M (A : Type) : Type := state -> result A * state.

Definition ret {A : Type} (a : A) : M A := fun st => (Ok a, st).

Definition raise {A : Type} (e : exn) : M A := fun st => (Raise e, st).

Definition bind {A B : Type} (c : M A) (k : A -> M B) : M B :=
  fun st =>
    match c st with
    | (Ok a, st') => k a st'
    | (Raise e, st') => (Raise e, st')
    end.

(** [try: body / except Exception: handler] *)
Definition try_except {A : Type} (body : M A) (handler : exn -> M A) : M A :=
  fun st =>
    match body st with
    | (Ok a, st') => (Ok a, st')
    | (Raise e, st') => handler e st'
    end.

Definition lift {A : Type} (r : result A) : M A := fun st => (r, st).

Declare Scope monad_scope.
Delimit Scope monad_scope with monad.
Notation "x <- c ;; k" := (bind c (fun x => k))
  (at level 61, c at next level, right associativity) : monad_scope.
Notation "c ;; k" := (bind c (fun _ => k))
  (at level 61, right associativity) : monad_scope.
Local Open Scope monad_scope.

(** A call that is only recorded. *)
Definition emit (e : event) : M unit :=
  fun st => (Ok tt, {| trace := trace st ++ [e]; tracker_calls := tracker_calls st |}).

(** [[x for x in l if p(x)]] for a test that makes calls. *)
Fixpoint filterM {A : Type} (p : A -> M bool) (l : list A) : M (list A) :=
  match l with
  | [] => ret []
  | x :: l' =>
      keep <- p x ;;
      rest <- filterM p l' ;;
      ret (if keep then x :: rest else rest)
  end.

(** [for x in l: acc = body(acc, x)] *)
Fixpoint foldM {A B : Type} (body : B -> A -> M B) (l : list A) (acc : B) : M B :=
  match l with
  | [] => ret acc
  | x :: l' => acc' <- body acc x ;; foldM body l' acc'
  end.

(** ** The reviewer *)

(** The keys of [self.review_prompts]; the instruction texts they map to
    only enter the request text. *)
Definition review_prompts : list string :=
  ["comprehensive"; "security"; "performance"; "architecture"; "bugs"].

(** [re.search(r'\{.*\}', text, re.DOTALL)]: with [DOTALL] the dot matches
    every character, so the leftmost longest match runs from the first
    opening brace to the last closing brace after it, and there is a match
    exactly when there is such a pair. *)
Fixpoint from_first_open (s : string) : option string :=
  match s with
  | EmptyString => None
  | String c s' => if Ascii.eqb c "{" then Some s else from_first_open s'
  end.

Fixpoint through_last_close (s : string) : option string :=
  match s with
  | EmptyString => None
  | String c s' =>
      match through_last_close s' with
      | Some m => Some (String c m)
      | None => if Ascii.eqb c "}" then Some (String c EmptyString) else None
      end
  end.

Definition re_search_braces (text : string) : option string :=
  match from_first_open text with
  | Some s => through_last_close s
  | None => None
  end.

(** [color_map] of [label_exists]. *)
Definition color_map : list (string * string) :=
  [("severity:critical", "d73a4a");
   ("severity:high", "e99695");
   ("severity:medium", "f9d71c");
   ("severity:low", "7bbe48");
   ("claude-review", "0052cc");
   ("automated", "bfdadc")].

Fixpoint lookup (m : list (string * string)) (key default : string) : string :=
  match m with
  | [] => default
  | (k, v) :: m' => if String.eqb k key then v else lookup m' key default
  end.

(** The name of a label.  A value that is not a string is interpolated by
    [str()], which is not rendered here; such a name is no key of
    [color_map], whose severity keys end in a severity word. *)
Definition label_name (l : label) : option string :=
  match l with
  | SeverityLabel (JStr s) => Some ("severity:" ++ s)%string
  | CategoryLabel (JStr s) => Some ("category:" ++ s)%string
  | NamedLabel name => Some name
  | _ => None
  end.

(** [color_map.get(label_name, 'c5def5')] *)
Definition label_color (l : label) : string :=
  match label_name l with
  | Some name => lookup color_map name "c5def5"
  | None => "c5def5"
  end.

(** [all_issues.extend(issues)]: a list gives its elements, a string its
    characters, a dict its keys; nothing else can be iterated. *)
Fixpoint chars (s : string) : list json :=
  match s with
  | EmptyString => []
  | String c s' => JStr (String c EmptyString) :: chars s'
  end.

Definition extend (all_issues : list json) (issues : json) : result (list json) :=
  match issues with
  | JArr items => Ok (all_issues ++ items)
  | JStr s => Ok (all_issues ++ chars s)
  | JObj fields => Ok (all_issues ++ map (fun kv => JStr (fst kv)) fields)
  | _ => Raise TypeError
  end.

(** The grouping loop of [create_summary_issue]. *)
Fixpoint add_to_group (by_category : list (json * list dict)) (cat : json) (issue : dict)
  : list (json * list dict) :=
  match by_category with
  | [] => [(cat, [issue])]
  | (k, l) :: rest =>
      if key_eqb k cat then (k, l ++ [issue]) :: rest
      else (k, l) :: add_to_group rest cat issue
  end.

Fixpoint group_by_category (issues : list dict) (by_category : list (json * list dict))
  : result (list (json * list dict)) :=
  match issues with
  | [] => Ok by_category
  | issue :: rest =>
      let cat := dict_get_or issue "category" (JStr "general") in
      if hashable cat then group_by_category rest (add_to_group by_category cat issue)
      else Raise TypeError
  end.

(** The sections of the summary body: [category.title()] needs a [str],
    and a section lists [cat_issues[:10]]. *)
Fixpoint summary_sections (by_category : list (json * list dict))
  : result (list (string * Z * list dict)) :=
  match by_category with
  | [] => Ok []
  | (JStr category, cat_issues) :: rest =>
      match summary_sections rest with
      | Ok sections =>
          Ok ((category, Z.of_nat (length cat_issues), firstn 10 cat_issues) :: sections)
      | Raise e => Raise e
      end
  | _ :: _ => Raise AttributeError
  end.

(** [not value] for an environment variable: unset or empty. *)
Definition unset (value : option string) : bool :=
  match value with
  | None | Some EmptyString => true
  | Some _ => false
  end.

Section Reviewer.

Variable w : world.

(** [os.environ.get('REVIEW_TYPE', 'comprehensive')] *)
Definition review_type : string :=
  match env_review_type w with
  | Some v => v
  | None => "comprehensive"
  end.

Definition repo_name : string :=
  match env_github_repository w with
  | Some v => v
  | None => "48Nauts-Operator/nexus-protocol"
  end.

(** A call to the issue tracker: recorded, and it raises when the tracker
    fails it. *)
Definition tracker_call (e : event) : M unit :=
  fun st =>
    (if tracker_ok w (tracker_calls st) then Ok tt else Raise RemoteError,
     {| trace := trace st ++ [e]; tracker_calls := S (tracker_calls st) |}).

(** [__init__] *)
Definition init : M unit :=
  if unset (env_anthropic_api_key w) then raise ValueError
  else if unset (env_github_token w) then raise ValueError
  else
    emit (Connect repo_name) ;;
    if connects w then ret tt else raise RemoteError.

(** [get_codebase_files] catches what fails for a file and skips it. *)
Definition get_codebase_files : M (list SourceFile) :=
  emit Walk ;; ret (codebase w).

(** The part of [review_chunk] that reads the response text. *)
Definition extract_issues (response_text : string) : result json :=
  match re_search_braces response_text with
  | Some json_match =>
      match json_loads w json_match with
      | None => Raise JSONDecodeError
      | Some (JObj issues_data) => Ok (dict_get_or issues_data "issues" (JArr []))
      | Some _ => Raise AttributeError
      end
  | None => Ok (JArr [])
  end.

Definition messages_create (index : nat) (files_chunk : list SourceFile) : M string :=
  emit (Request review_type files_chunk) ;;
  match api w index with
  | ApiText response_text => ret response_text
  | ApiRaises => raise RemoteError
  end.

(** [review_chunk]: the prompt is built before the [try]. *)
Definition review_chunk (index : nat) (files_chunk : list SourceFile) : M json :=
  (if existsb (String.eqb review_type) review_prompts then ret tt else raise KeyError) ;;
  try_except
    (response_text <- messages_create index files_chunk ;;
     lift (extract_issues response_text))
    (fun _ => ret (JArr [])).

(** [label_exists] *)
Definition label_exists (l : label) : M bool :=
  try_except
    (tracker_call (GetLabel l) ;; ret true)
    (fun _ =>
       try_except
         (tracker_call (CreateLabel l (label_color l)) ;; ret true)
         (fun _ => ret false)).

(** The body of the loop of [create_github_issues] over the critical and
    high findings. *)
Definition create_issue_for (created_issues : list issue_text) (issue : dict)
  : M (list issue_text) :=
  try_except
    (title <- lift (dict_item issue "title") ;;
     let labels :=
       [SeverityLabel (dict_get_or issue "severity" (JStr "unknown"));
        CategoryLabel (dict_get_or issue "category" (JStr "general"));
        NamedLabel "claude-review";
        NamedLabel "automated"] in
     existing <- filterM label_exists labels ;;
     tracker_call (CreateIssue (FindingText title issue) existing) ;;
     emit (Sleep 2) ;;
     ret (created_issues ++ [FindingText title issue]))
    (fun _ => ret created_issues).

(** [create_summary_issue] *)
Definition create_summary_issue (issues : list dict) : M unit :=
  by_category <- lift (group_by_category issues []) ;;
  sections <- lift (summary_sections by_category) ;;
  try_except
    (tracker_call
       (CreateIssue (SummaryText (Z.of_nat (length issues)) sections)
                    [NamedLabel "claude-review"; NamedLabel "automated"; NamedLabel "summary"]))
    (fun _ => ret tt).

(** [create_github_issues] *)
Definition create_github_issues (issues : list json) : M (list issue_text) :=
  findings <- lift (as_dicts issues) ;;
  created_issues <-
    foldM create_issue_for (critical_issues findings ++ high_issues findings) [] ;;
  match other_issues findings with
  | [] => ret created_issues
  | _ :: _ => create_summary_issue (other_issues findings) ;; ret created_issues
  end.

(** [generate_summary_report] *)
Definition generate_summary_report (all_issues : list json) : M unit :=
  findings <- lift (as_dicts all_issues) ;;
  r <- lift (summary_report findings) ;;
  emit (WriteReport r) ;;
  if report_writable w then ret tt else raise OSError.

(** One turn of the loop of [run] over the batches. *)
Definition review_turn (index : nat) (chunk : list SourceFile) (all_issues : list json)
  : M (list json) :=
  issues <- review_chunk index chunk ;;
  all_issues' <- lift (extend all_issues issues) ;;
  emit (Sleep 5) ;;
  ret all_issues'.

Fixpoint review_all (chunks : list (list SourceFile)) (index : nat) (all_issues : list json)
  : M (list json) :=
  match chunks with
  | [] => ret all_issues
  | chunk :: rest =>
      all_issues' <- review_turn index chunk all_issues ;;
      review_all rest (S index) all_issues'
  end.

(** [run] *)
Definition run : M unit :=
  files <- get_codebase_files ;;
  let chunks := Batcher.chunk_files_for_review files Batcher.default_max_tokens in
  all_issues <- review_all chunks 0 [] ;;
  generate_summary_report all_issues ;;
  match all_issues with
  | [] => ret tt
  | _ :: _ => create_github_issues all_issues ;; ret tt
  end.

(** The [__main__] block: the exit status and the calls made. *)
Definition main : Z * list event :=
  match (init ;; run) initial_state with
  | (Ok _, st) => (0, trace st)
  | (Raise _, st) => (1, trace st)
  end.

End Reviewer.

(** ** Notions the statements use *)

(** The character occurs in the string. *)
Fixpoint has_char (c : ascii) (s : string) : bool :=
  match s with
  | EmptyString => false
  | String c' s' => Ascii.eqb c' c || has_char c s'
  end.

(** The text has an opening brace with a closing brace somewhere after it. *)
Definition brace_region (text : string) : Prop :=
  exists a b c, text = (a ++ "{" ++ b ++ "}" ++ c)%string.

(** The review type selects one of the instruction texts. *)
Definition known_review_type (w : world) : bool :=
  existsb (String.eqb (review_type w)) review_prompts.

(** The state once the request for a batch has been sent. *)
Definition requested (w : world) (files_chunk : list SourceFile) (st : state) : state :=
  {| trace := trace st ++ [Request (review_type w) files_chunk];
     tracker_calls := tracker_calls st |}.

(** The same world with other answers of the issue tracker. *)
Definition with_tracker (w : world) (answers : nat -> bool) : world :=
  {| env_anthropic_api_key := env_anthropic_api_key w;
     env_github_token := env_github_token w;
     env_review_type := env_review_type w;
     env_github_repository := env_github_repository w;
     connects := connects w;
     codebase := codebase w;
     api := api w;
     json_loads := json_loads w;
     report_writable := report_writable w;
     tracker_ok := answers |}.

(** The part of [__main__] before [create_github_issues] is reached: the
    set-up, the collection, the reviews and the report. *)
Definition report_stage (w : world) : M (list json) :=
  init w ;;
  files <- get_codebase_files w ;;
  all_issues <-
    review_all w (Batcher.chunk_files_for_review files Batcher.default_max_tokens) 0 [] ;;
  generate_summary_report w all_issues ;;
  ret all_issues.

Definition reaches_issue_stage (w : world) : bool :=
  match report_stage w initial_state with
  | (Ok _, _) => true
  | (Raise _, _) => false
  end.

(** ** A sample run

    One file, one batch; the service answers with prose around one JSON
    object holding a critical and a low finding; the tracker fails every
    call. *)
Definition dq : string := String "034"%char EmptyString.

Definition quoted (s : string) : string := (dq ++ s ++ dq)%string.

Definition sample_body : string :=
  (quoted "issues" ++ ": [{" ++ quoted "severity" ++ ": " ++ quoted "critical"
   ++ ", " ++ quoted "title" ++ ": " ++ quoted "Hard-coded secret" ++ "}, {"
   ++ quoted "severity" ++ ": " ++ quoted "low" ++ ", " ++ quoted "title" ++ ": "
   ++ quoted "Unused import" ++ "}]")%string.

Definition sample_object_text : string := ("{" ++ sample_body ++ "}")%string.

Definition sample_critical : dict :=
  [("severity", JStr "critical"); ("title", JStr "Hard-coded secret")].

Definition sample_low : dict :=
  [("severity", JStr "low"); ("title", JStr "Unused import")].

Definition sample_object : json :=
  JObj [("issues", JArr [JObj sample_critical; JObj sample_low])].

Definition sample_response : string :=
  ("Here is my analysis: " ++ sample_object_text ++ " Thanks!")%string.

(** What [json.loads] answers on the one text the sample run decodes. *)
Definition sample_json_loads (s : string) : option json :=
  if String.eqb s sample_object_text then Some sample_object else None.

Definition sample_file : SourceFile := {| path := "./app.py"; content := "import os" |}.

Definition sample_world : world :=
  {| env_anthropic_api_key := Some "key";
     env_github_token := Some "token";
     env_review_type := None;
     env_github_repository := None;
     connects := true;
     codebase := [sample_file];
     api := fun _ => ApiText sample_response;
     json_loads := sample_json_loads;
     report_writable := true;
     tracker_ok := fun _ => false |}.

(** A response whose prose has braces of its own before the one JSON
    object, [{"issues": ["x"]}] after [See {braces}: ]; [json.loads] decodes
    the object and rejects any other text. *)
Definition stray_object_text : string :=
  ("{" ++ quoted "issues" ++ ": [" ++ quoted "x" ++ "]}")%string.

Definition stray_response : string := ("See {braces}: " ++ stray_object_text)%string.

Definition stray_json_loads (s : string) : option json :=
  if String.eqb s stray_object_text then Some (JObj [("issues", JArr [JStr "x"])])
  else None.

Definition stray_world : world :=
  {| env_anthropic_api_key := Some "key";
     env_github_token := Some "token";
     env_review_type := None;
     env_github_repository := None;
     connects := true;
     codebase := [sample_file];
     api := fun _ => ApiText stray_response;
     json_loads := stray_json_loads;
     report_writable := true;
     tracker_ok := fun _ => true |}.

(** A world whose service fails the first request, answers the second
    without any brace and the third with braces around no JSON. *)
Definition failing_world : world :=
  {| env_anthropic_api_key := Some "key";
     env_github_token := Some "token";
     env_review_type := Some "security";
     env_github_repository := None;
     connects := true;
     codebase := [sample_file];
     api := fun index =>
              match index with
              | O => ApiRaises
              | S O => ApiText "No findings."
              | _ => ApiText "Findings: {oops}"
              end;
     json_loads := sample_json_loads;
     report_writable := true;
     tracker_ok := fun _ => true |}.

(** ** The file collector: [get_codebase_files]

    The tree under the working directory, as [os.walk] lists it: the entries
    of a directory in the order of the listing.  A file whose [open] or
    [read] raises (unreadable, or not UTF-8) has no text.  Links to
    directories, which [os.walk] lists and does not enter, are not part of
    the tree. *)
Inductive entry : Type :=
| File (name : string) (text : option string)
| Dir (name : string) (entries : list entry).

Definition extensions : list string :=
  [".py"; ".js"; ".jsx"; ".ts"; ".tsx"; ".json"; ".yaml"; ".yml"; ".md"].

Definition exclude_dirs : list string :=
  ["node_modules"; "__pycache__"; ".git"; "venv"; "dist"; "build"].

(** [s.endswith(ext)] *)
Fixpoint ends_with (s ext : string) : bool :=
  if String.eqb s ext then true
  else match s with
       | EmptyString => false
       | String _ s' => ends_with s' ext
       end.

(** [os.path.join(root, file)] with the POSIX separator, for a file name,
    which has no separator. *)
Definition path_join (root name : string) : string := (root ++ "/" ++ name)%string.

(** The body of [for file in files] for one entry of the directory
    [root]; a subdirectory is not in [files]. *)
Definition read_entry (root : string) (e : entry) : list SourceFile :=
  match e with
  | File name text =>
      if existsb (ends_with name) extensions then
        match text with
        | Some content =>
            if len content <? 50000
            then [{| path := path_join root name; content := content |}]
            else []
        | None => []
        end
      else []
  | Dir _ _ => []
  end.

(** What the walk adds when it comes to a subdirectory of [root]: nothing
    for a pruned one, else its files and then, in order, what its own
    subdirectories add. *)
Fixpoint walk_entry (root : string) (e : entry) : list SourceFile :=
  match e with
  | File _ _ => []
  | Dir name entries =>
      if existsb (String.eqb name) exclude_dirs then []
      else
        flat_map (read_entry (path_join root name)) entries
        ++ flat_map (walk_entry (path_join root name)) entries
  end.

(** The walk from a directory [root] with the given entries. *)
Definition walk_dir (root : string) (entries : list entry) : list SourceFile :=
  flat_map (read_entry root) entries ++ flat_map (walk_entry root) entries.

(** The files [get_codebase_files] returns for a working directory. *)
Definition collected (entries : list entry) : list SourceFile := walk_dir "." entries.

(** The files the walk is meant to find under [root]: a readable file of
    the directory with an accepted extension and fewer than 50000
    characters, or such a file of a subdirectory that is not excluded. *)
Inductive eligible : string -> list entry -> SourceFile -> Prop :=
| eligible_here root entries name content :
    In (File name (Some content)) entries ->
    existsb (ends_with name) extensions = true ->
    len content < 50000 ->
    eligible root entries {| path := path_join root name; content := content |}
| eligible_below root entries name sub f :
    In (Dir name sub) entries ->
    existsb (String.eqb name) exclude_dirs = false ->
    eligible (path_join root name) sub f ->
    eligible root entries f.

(** A small tree: two sources, a log, a vendored package, a package of
    the project with one unreadable file. *)
Definition sample_tree : list entry :=
  [File "app.py" (Some "import os");
   File "run.log" (Some "started");
   Dir "node_modules" [File "index.js" (Some "module.exports = 1")];
   Dir "src" [File "blob.json" None; File "util.ts" (Some "export {}")];
   File "README.md" (Some "# readme")].

(** ** Notions for the further properties *)

(** Every batch but the last is closed because the first file of the next
    one did not fit: the sizes of a batch and of that file, together, are
    over the budget. *)
Inductive tight (max_tokens : Z) : list (list SourceFile) -> Prop :=
| tight_nil : tight max_tokens []
| tight_one batch : tight max_tokens [batch]
| tight_cons batch f rest batches :
    Batcher.batch_tokens batch + Batcher.file_tokens f > max_tokens ->
    tight max_tokens ((f :: rest) :: batches) ->
    tight max_tokens (batch :: (f :: rest) :: batches).

(** What [review_chunk] returns for the batch of a given index once the
    request is made: the decoded [issues], or the empty list after a
    failure. *)
Definition batch_result (w : world) (index : nat) : json :=
  match api w index with
  | ApiRaises => JArr []
  | ApiText response_text =>
      match extract_issues w response_text with
      | Ok issues => issues
      | Raise _ => JArr []
      end
  end.

(** The elements of a decoded list. *)
Definition array_items (v : json) : list json :=
  match v with
  | JArr items => items
  | _ => []
  end.

(** The calls of a review of the batches, one after the other. *)
Definition review_events (w : world) (chunks : list (list SourceFile)) : list event :=
  flat_map (fun chunk => [Request (review_type w) chunk; Sleep 5]) chunks.

(** A call that looks up a label, creates a label or creates an issue:
    the calls of the issue reporter.  The repository lookup of the set-up,
    which is part of [Connect], is not one of them. *)
Definition filing_call (e : event) : bool :=
  match e with
  | GetLabel _ | CreateLabel _ _ | CreateIssue _ _ => true
  | _ => false
  end.

(** The issues of their own that findings call for: one for each
    finding that has a title, in order. *)
Definition issues_of (findings : list dict) : list issue_text :=
  flat_map (fun i => match dict_get i "title" with
                     | Some title => [FindingText title i]
                     | None => []
                     end) findings.

(** The sum of the counts the sections of a summary show. *)
Definition sections_total (sections : list (string * Z * list dict)) : Z :=
  fold_right (fun s acc => snd (fst s) + acc) 0 sections.

(** The sample world with a tracker that accepts every call. *)
Definition working_world : world := with_tracker sample_world (fun _ => true).

(** The number of findings the groups of a summary hold. *)
Definition groups_total (by_category : list (json * list dict)) : nat :=
  fold_right (fun g acc => (length (snd g) + acc)%nat) 0%nat by_category.




(** From one state to a later one no label or issue call was made. *)
Definition silent (st st' : state) : Prop :=
  exists events, trace st' = trace st ++ events /\ existsb filing_call events = false.

(** ** Measures of a batch

    The size of a batch, measured on the contents of its files and not
    through what the batcher adds up: the sum of [floor(length / 4)], the
    sum of [ceil(length / 4)] that the specification names, and the number
    of characters. *)
Definition floor_estimate (batch : list SourceFile) : Z :=
  fold_right (fun f acc => len (content f) / 4 + acc) 0 batch.

Definition ceil_estimate (batch : list SourceFile) : Z :=
  fold_right (fun f acc => Batcher.ceil_div4 (len (content f)) + acc) 0 batch.

Definition batch_chars (batch : list SourceFile) : Z :=
  fold_right (fun f acc => len (content f) + acc) 0 batch.

(** What a call that creates the issue of a finding must be about: a
    finding among the allowed ones, under its own title.  Other calls are
    not constrained. *)
Definition finding_call_ok (allowed : list dict) (e : event) : Prop :=
  match e with
  | CreateIssue (FindingText title finding) _ =>
      In finding allowed /\ dict_get finding "title" = Some title
  | _ => True
  end.

(** From one state to a later one only calls with a given property were
    made. *)
Definition adds (P : event -> Prop) (st st' : state) : Prop :=
  exists events, trace st' = trace st ++ events /\ Forall P events.

(** * Theorems *)

(** ** Batcher *)

Section BatcherFacts.
Import Batcher.

Lemma file_tokens_nonneg (f : SourceFile) : 0 <= file_tokens f.
Proof. unfold file_tokens, len. apply Z.div_pos; lia. Qed.

Lemma batch_tokens_app (a b : list SourceFile) :
  batch_tokens (a ++ b) = batch_tokens a + batch_tokens b.
Proof. induction a as [|x a IH]; simpl; [reflexivity | rewrite IH; lia]. Qed.

Lemma batch_tokens_nonneg (b : list SourceFile) : 0 <= batch_tokens b.
Proof.
  induction b as [|x b IH]; simpl; [lia|].
  pose proof (file_tokens_nonneg x). lia.
Qed.

Lemma concat_flush (cs : list (list SourceFile)) (c : list SourceFile) :
  concat (flush cs c) = concat cs ++ c.
Proof.
  destruct c as [|x c]; simpl.
  - now rewrite app_nil_r.
  - rewrite concat_app. simpl. now rewrite app_nil_r.
Qed.

Lemma Forall_flush (P : list SourceFile -> Prop) cs c :
  Forall P cs -> (c <> [] -> P c) -> Forall P (flush cs c).
Proof.
  intros Hcs Hc. destruct c as [|x c]; simpl; [assumption|].
  apply Forall_app. split; [assumption|].
  constructor; [apply Hc; discriminate | constructor].
Qed.

Lemma In_flush (b : list SourceFile) cs c :
  In b (flush cs c) <-> In b cs \/ (c <> [] /\ b = c).
Proof.
  destruct c as [|x c]; simpl.
  - intuition congruence.
  - rewrite in_app_iff. simpl. split.
    + intros [H|[H|[]]]; [now left | right; split; [discriminate | now symmetry]].
    + intros [H|[_ H]]; [now left | right; left; now symmetry].
Qed.

Lemma loop_inv_init (max_tokens : Z) : loop_inv max_tokens [] loop_init.
Proof.
  constructor; simpl; try constructor; try reflexivity; try lia; try (intros f []).
Qed.

Lemma loop_inv_step (max_tokens : Z) seen st f :
  loop_inv max_tokens seen st ->
  loop_inv max_tokens (seen ++ [f]) (loop_body max_tokens st f).
Proof.
  intros [Hcat Hsz Hne Hcl Hop Hbig].
  pose proof (file_tokens_nonneg f) as Hf.
  pose proof (batch_tokens_nonneg (current_chunk st)) as Hcur.
  unfold loop_body.
  destruct (Z.gtb_spec (current_size st + file_tokens f) max_tokens) as [Hgt|Hle].
  - constructor; simpl.
    + rewrite concat_flush, Hcat. reflexivity.
    + lia.
    + apply Forall_flush; auto.
    + apply Forall_flush; [assumption|]. intros _ H2. rewrite <- Hsz. auto.
    + lia.
    + intros g Hg Hgbig. apply in_app_iff in Hg. destruct Hg as [Hg|[->|[]]].
      * destruct (Hbig g Hg Hgbig) as [H|H].
        -- left. apply In_flush. now left.
        -- left. apply In_flush. right. rewrite H. split; [discriminate|reflexivity].
      * now right.
  - constructor; simpl.
    + rewrite app_assoc, Hcat. reflexivity.
    + rewrite batch_tokens_app, Hsz. simpl. lia.
    + assumption.
    + assumption.
    + lia.
    + intros g Hg Hgbig. apply in_app_iff in Hg. destruct Hg as [Hg|[->|[]]].
      * destruct (Hbig g Hg Hgbig) as [H|H]; [now left|].
        exfalso. rewrite H in Hsz. simpl in Hsz. lia.
      * exfalso. lia.
Qed.

Lemma loop_inv_fold (max_tokens : Z) files : forall seen st,
  loop_inv max_tokens seen st ->
  loop_inv max_tokens (seen ++ files) (fold_left (loop_body max_tokens) files st).
Proof.
  induction files as [|f files IH]; intros seen st Hinv; simpl.
  - now rewrite app_nil_r.
  - replace (seen ++ f :: files) with ((seen ++ [f]) ++ files)
      by (rewrite <- app_assoc; reflexivity).
    apply IH. now apply loop_inv_step.
Qed.

Lemma loop_run_inv (max_tokens : Z) files :
  loop_inv max_tokens files (loop_run max_tokens files).
Proof. exact (loop_inv_fold max_tokens files [] loop_init (loop_inv_init max_tokens)). Qed.

Lemma length_filler (n : nat) : String.length (filler n) = n.
Proof. induction n as [|n IH]; simpl; congruence. Qed.

Lemma len_file_of_length (name : string) (n : Z) :
  0 <= n -> len (content (file_of_length name n)) = n.
Proof.
  intros Hn. unfold len, file_of_length. simpl.
  rewrite length_filler. now apply Z2Nat.id.
Qed.

(** C5: the batches, concatenated in order, are the input list: every
    file is in one batch, none is lost, none is repeated. *)
Theorem chunk_files_concat (files : list SourceFile) (max_tokens : Z) :
  concat (chunk_files_for_review files max_tokens) = files.
Proof.
  unfold chunk_files_for_review.
  rewrite concat_flush.
  exact (inv_concat _ _ _ (loop_run_inv max_tokens files)).
Qed.

Lemma chunk_files_all_nonempty (files : list SourceFile) (max_tokens : Z) :
  Forall (fun batch => batch <> []) (chunk_files_for_review files max_tokens).
Proof.
  unfold chunk_files_for_review.
  apply Forall_flush; [|auto].
  exact (inv_nonempty _ _ _ (loop_run_inv max_tokens files)).
Qed.

(** C10: no batch of the output is empty, and no file gives no batch. *)
Theorem chunk_files_nonempty (files : list SourceFile) (max_tokens : Z) :
  Forall (fun batch => batch <> []) (chunk_files_for_review files max_tokens)
  /\ chunk_files_for_review [] max_tokens = [].
Proof.
  split; [apply chunk_files_all_nonempty | reflexivity].
Qed.

Lemma chunk_files_bounded (files : list SourceFile) (max_tokens : Z) :
  Forall (fun batch => (2 <= length batch)%nat -> batch_tokens batch <= max_tokens)
         (chunk_files_for_review files max_tokens).
Proof.
  unfold chunk_files_for_review.
  destruct (loop_run_inv max_tokens files) as [_ Hsz _ Hcl Hop _].
  apply Forall_flush; [assumption|].
  intros _ H2. rewrite <- Hsz. auto.
Qed.

(** In the batcher's own estimate: a batch of two or more files is within
    the budget; a batch over the budget has exactly one file; a file that
    alone is over the budget is a batch of its own.  The budget need not be
    positive. *)
Lemma chunk_files_budget (files : list SourceFile) (max_tokens : Z) :
  let batches := chunk_files_for_review files max_tokens in
  (forall batch, In batch batches -> (2 <= length batch)%nat ->
                 batch_tokens batch <= max_tokens)
  /\ (forall batch, In batch batches -> batch_tokens batch > max_tokens ->
                    length batch = 1%nat)
  /\ (forall f, In f files -> file_tokens f > max_tokens -> In [f] batches).
Proof.
  cbv zeta.
  pose proof (chunk_files_bounded files max_tokens) as Hb.
  rewrite Forall_forall in Hb.
  split; [|split].
  - intros batch Hin. exact (Hb batch Hin).
  - intros batch Hin Hover.
    pose proof (chunk_files_all_nonempty files max_tokens) as Hne.
    rewrite Forall_forall in Hne.
    specialize (Hne batch Hin). specialize (Hb batch Hin).
    destruct batch as [|x [|y batch]]; [congruence | reflexivity |].
    assert (batch_tokens (x :: y :: batch) <= max_tokens) by (apply Hb; simpl; lia).
    lia.
  - intros f Hin Hover.
    unfold chunk_files_for_review. apply In_flush.
    destruct (inv_big _ _ _ (loop_run_inv max_tokens files) f Hin Hover) as [H|H].
    + now left.
    + right. rewrite H. split; [discriminate | reflexivity].
Qed.

(** C2, as the specification states it, fails: a file of one character
    is counted as no token, where [ceil(1 / 4)] is one. *)
Lemma file_tokens_not_ceil :
  file_tokens (file_of_length "a.py" 1) = 0
  /\ ceil_div4 (len (content (file_of_length "a.py" 1))) = 1.
Proof. split; reflexivity. Qed.

(** C2, amended: the estimate of a file is the floor of a quarter of its
    length; it is the ceiling exactly for lengths that are multiples of
    four and one less otherwise; and the size the loop has accumulated for
    the batch under construction is the sum of the estimates of its files. *)
Theorem file_tokens_floor_sum (files : list SourceFile) (max_tokens : Z) (f : SourceFile) :
  (4 * file_tokens f <= len (content f) < 4 * file_tokens f + 4)
  /\ file_tokens f =
       ceil_div4 (len (content f)) - (if len (content f) mod 4 =? 0 then 0 else 1)
  /\ current_size (loop_run max_tokens files)
       = batch_tokens (current_chunk (loop_run max_tokens files)).
Proof.
  split; [|split].
  - unfold file_tokens.
    pose proof (Z.div_mod (len (content f)) 4 ltac:(lia)).
    pose proof (Z.mod_pos_bound (len (content f)) 4 ltac:(lia)). lia.
  - unfold file_tokens, ceil_div4.
    pose proof (Z.div_mod (len (content f)) 4 ltac:(lia)) as Hdm.
    pose proof (Z.mod_pos_bound (len (content f)) 4 ltac:(lia)) as Hb.
    destruct (Z.eqb_spec (len (content f) mod 4) 0) as [H0|H0].
    + rewrite Z.sub_0_r. apply Z.div_unique with (r := 3); lia.
    + assert (len (content f) / 4 + 1 = (len (content f) + 3) / 4); [|lia].
      apply Z.div_unique with (r := len (content f) mod 4 - 1); lia.
  - exact (inv_size _ _ _ (loop_run_inv max_tokens files)).
Qed.

(** C7: with the default budget of 50000 tokens, files of 1000, 1000 and
    210000 characters give two batches, the first two files together and
    the third, over the budget by itself, alone. *)
Theorem chunk_files_scenario (f1 f2 f3 : SourceFile) :
  len (content f1) = 1000 ->
  len (content f2) = 1000 ->
  len (content f3) = 210000 ->
  chunk_files_for_review [f1; f2; f3] default_max_tokens = [[f1; f2]; [f3]]
  /\ file_tokens f3 > default_max_tokens
  /\ concat (chunk_files_for_review [f1; f2; f3] default_max_tokens) = [f1; f2; f3].
Proof.
  intros H1 H2 H3.
  assert (chunk_files_for_review [f1; f2; f3] default_max_tokens = [[f1; f2]; [f3]]) as E.
  { unfold chunk_files_for_review, loop_run, loop_body, file_tokens. simpl.
    rewrite H1. simpl. rewrite H2. simpl. rewrite H3. reflexivity. }
  split; [exact E | split].
  - unfold file_tokens. rewrite H3. reflexivity.
  - rewrite E. reflexivity.
Qed.

Lemma chunk_files_scenario_witness :
  let f1 := file_of_length "a.py" 1000 in
  let f2 := file_of_length "b.py" 1000 in
  let f3 := file_of_length "c.py" 210000 in
  chunk_files_for_review [f1; f2; f3] default_max_tokens = [[f1; f2]; [f3]]
  /\ file_tokens f3 > default_max_tokens
  /\ concat (chunk_files_for_review [f1; f2; f3] default_max_tokens) = [f1; f2; f3].
Proof.
  cbv zeta.
  apply chunk_files_scenario; apply len_file_of_length; lia.
Defined.

End BatcherFacts.

(** ** Issue reporter: the severity groups *)

Section SeverityFacts.

(** The four severities exclude one another. *)
Lemma severity_cases (i : dict) :
  match dict_get i "severity" with
  | Some (JStr s) =>
      (s = "critical" \/ s = "high" \/ s = "medium" \/ s = "low") /\ recognised i = true
      \/ (s <> "critical" /\ s <> "high" /\ s <> "medium" /\ s <> "low") /\ recognised i = false
  | _ => recognised i = false
  end.
Proof.
  unfold recognised, get_in_strs, get_eq_str. simpl.
  destruct (dict_get i "severity") as [[| | |s| |]|]; try reflexivity.
  destruct (String.eqb_spec s "critical"); [left; auto|].
  destruct (String.eqb_spec s "high"); [left; auto|].
  destruct (String.eqb_spec s "medium"); [left; auto|].
  destruct (String.eqb_spec s "low"); [left; auto|].
  right. auto.
Qed.

Lemma get_eq_str_true (i : dict) (k s : string) :
  get_eq_str i k s = true <-> dict_get i k = Some (JStr s).
Proof.
  unfold get_eq_str. destruct (dict_get i k) as [[| | |v| |]|]; try (split; discriminate).
  destruct (String.eqb_spec v s); split; congruence.
Qed.

Lemma other_test (i : dict) :
  get_in_strs i "severity" ["medium"; "low"] = true
  <-> dict_get i "severity" = Some (JStr "medium") \/ dict_get i "severity" = Some (JStr "low").
Proof.
  unfold get_in_strs. simpl. rewrite orb_false_r, orb_true_iff.
  now rewrite !get_eq_str_true.
Qed.

Lemma recognised_test (i : dict) :
  recognised i = true
  <-> exists s, dict_get i "severity" = Some (JStr s)
                /\ (s = "critical" \/ s = "high" \/ s = "medium" \/ s = "low").
Proof.
  pose proof (severity_cases i) as H.
  destruct (dict_get i "severity") as [[| | |s| |]|];
    try (rewrite H; split; [discriminate | intros [s' [E _]]; discriminate]).
  destruct H as [[Hs ->]|[Hs ->]].
  - split; [|reflexivity]. intros _. exists s. auto.
  - split; [discriminate|]. intros [s' [E Hs']]. injection E as E. subst s'.
    destruct Hs as (H1 & H2 & H3 & H4). destruct Hs' as [?|[?|[?|?]]]; contradiction.
Qed.

(** C1, as the specification states it, fails: a finding of severity
    [info], and one with no severity, are in none of the three groups. *)
Lemma unknown_severity_in_no_group :
  let unknown := [("severity", JStr "info"); ("title", JStr "t")] in
  let absent := [("title", JStr "t")] in
  critical_issues [unknown; absent] = []
  /\ high_issues [unknown; absent] = []
  /\ other_issues [unknown; absent] = [].
Proof. cbv zeta. repeat split. Qed.

(** C1, amended: a finding is in the critical group exactly when its
    severity is [critical], in the high group exactly when it is [high], in
    the other group exactly when it is [medium] or [low]; so it is in at
    most one group, in exactly one when its severity is one of the four, and
    in none when the severity is anything else or is absent. *)
Theorem severity_groups (issues : list dict) (i : dict) :
  In i issues ->
  (In i (critical_issues issues) <-> dict_get i "severity" = Some (JStr "critical"))
  /\ (In i (high_issues issues) <-> dict_get i "severity" = Some (JStr "high"))
  /\ (In i (other_issues issues) <->
        dict_get i "severity" = Some (JStr "medium")
        \/ dict_get i "severity" = Some (JStr "low"))
  /\ ~ (In i (critical_issues issues) /\ In i (high_issues issues))
  /\ ~ (In i (critical_issues issues) /\ In i (other_issues issues))
  /\ ~ (In i (high_issues issues) /\ In i (other_issues issues))
  /\ (recognised i = true ->
        In i (critical_issues issues) \/ In i (high_issues issues)
        \/ In i (other_issues issues))
  /\ (recognised i = false ->
        ~ In i (critical_issues issues) /\ ~ In i (high_issues issues)
        /\ ~ In i (other_issues issues)).
Proof.
  intros Hin.
  assert (Hc : In i (critical_issues issues) <-> dict_get i "severity" = Some (JStr "critical")).
  { unfold critical_issues. rewrite filter_In, get_eq_str_true. tauto. }
  assert (Hh : In i (high_issues issues) <-> dict_get i "severity" = Some (JStr "high")).
  { unfold high_issues. rewrite filter_In, get_eq_str_true. tauto. }
  assert (Ho : In i (other_issues issues) <->
               dict_get i "severity" = Some (JStr "medium")
               \/ dict_get i "severity" = Some (JStr "low")).
  { unfold other_issues. rewrite filter_In, other_test. tauto. }
  pose proof (recognised_test i) as Hr.
  rewrite Hc, Hh, Ho.
  split; [tauto|]. split; [tauto|]. split; [tauto|].
  split; [intros [H1 H2]; congruence|].
  split; [intros [H1 [H2|H2]]; congruence|].
  split; [intros [H1 [H2|H2]]; congruence|].
  split.
  - intros H. apply Hr in H. destruct H as [s [E [-> | [-> | [-> | ->]]]]]; auto.
  - intros H. rewrite <- not_true_iff_false in H.
    repeat split; intros E; apply H, Hr; [eauto | eauto 6 | destruct E; eauto 7].
Qed.

Lemma severity_groups_witness :
  let i := [("severity", JStr "low"); ("title", JStr "t")] in
  let issues := [[("severity", JStr "critical")]; i] in
  In i (other_issues issues) /\ ~ In i (critical_issues issues).
Proof.
  cbv zeta.
  pose proof (severity_groups
                [[("severity", JStr "critical")]; [("severity", JStr "low"); ("title", JStr "t")]]
                [("severity", JStr "low"); ("title", JStr "t")]
                ltac:(simpl; auto)) as (_ & _ & Ho & _ & Hco & _).
  split.
  - apply Ho. right. reflexivity.
  - intros Hc. apply Hco. split; [exact Hc|]. apply Ho. right. reflexivity.
Defined.

End SeverityFacts.

(** ** Summary report *)

Section ReportFacts.

Lemma severity_counts_recognised (all_issues : list dict) :
  severity_count all_issues "critical" + severity_count all_issues "high"
  + severity_count all_issues "medium" + severity_count all_issues "low"
  = Z.of_nat (length (filter recognised all_issues)).
Proof.
  unfold severity_count.
  induction all_issues as [|i rest IH]; [reflexivity|].
  cbn [filter].
  set (c := filter (fun i => get_eq_str i "severity" "critical") rest) in *.
  set (h := filter (fun i => get_eq_str i "severity" "high") rest) in *.
  set (m := filter (fun i => get_eq_str i "severity" "medium") rest) in *.
  set (l := filter (fun i => get_eq_str i "severity" "low") rest) in *.
  pose proof (severity_cases i) as H.
  unfold get_eq_str.
  destruct (dict_get i "severity") as [[| | |s| |]|]; try (rewrite H; exact IH).
  destruct H as [[Hs ->]|[(H1 & H2 & H3 & H4) ->]].
  - destruct Hs as [-> | [-> | [-> | ->]]]; cbn [String.eqb Ascii.eqb Bool.eqb andb length]; lia.
  - apply String.eqb_neq in H1, H2, H3, H4. rewrite H1, H2, H3, H4. exact IH.
Qed.

Lemma sum_counts_incr (categories : list (json * Z)) (cat : json) :
  sum_counts (incr categories cat) = sum_counts categories + 1.
Proof.
  induction categories as [|[k n] rest IH]; simpl; [reflexivity|].
  destruct (key_eqb k cat); simpl; lia.
Qed.

Lemma count_categories_sum (all_issues : list dict) : forall categories counted,
  count_categories all_issues categories = Ok counted ->
  sum_counts counted = sum_counts categories + Z.of_nat (length all_issues).
Proof.
  induction all_issues as [|i rest IH]; intros categories counted H.
  - simpl in H. injection H as <-. simpl. lia.
  - cbn [count_categories] in H.
    destruct (hashable (dict_get_or i "category" (JStr "general"))); [|discriminate].
    apply IH in H. rewrite H, sum_counts_incr. cbn [length]. lia.
Qed.

Lemma sum_counts_insert_desc {K : Type} (x : K * Z) (l : list (K * Z)) :
  sum_counts (insert_desc x l) = snd x + sum_counts l.
Proof.
  induction l as [|y l IH]; simpl; [reflexivity|].
  destruct (snd y >? snd x); simpl; lia.
Qed.

Lemma sum_counts_sorted_desc {K : Type} (l : list (K * Z)) :
  sum_counts (sorted_desc l) = sum_counts l.
Proof.
  unfold sorted_desc.
  induction l as [|x l IH]; [reflexivity|].
  cbn [fold_right]. rewrite sum_counts_insert_desc, IH. reflexivity.
Qed.

Lemma category_lines_sum (items : list (json * Z)) : forall lines,
  category_lines items = Ok lines -> sum_counts lines = sum_counts items.
Proof.
  induction items as [|[k n] rest IH]; intros lines H.
  - injection H as <-. reflexivity.
  - destruct k; try discriminate. cbn [category_lines] in H.
    destruct (category_lines rest) as [lines'|]; [|discriminate].
    injection H as <-. simpl. rewrite (IH lines' eq_refl). reflexivity.
Qed.

Lemma incr_str_keys (categories : list (json * Z)) (s : string) :
  Forall str_key categories -> Forall str_key (incr categories (JStr s)).
Proof.
  induction 1 as [|[k n] rest Hk Hrest IH]; simpl.
  - repeat constructor. now exists s.
  - destruct (key_eqb k (JStr s)); constructor; auto.
Qed.

Lemma count_categories_ok (all_issues : list dict) : forall categories,
  forallb category_is_str all_issues = true ->
  Forall str_key categories ->
  exists counted, count_categories all_issues categories = Ok counted
                  /\ Forall str_key counted.
Proof.
  induction all_issues as [|i rest IH]; intros categories Hstr Hkeys.
  - exists categories. split; [reflexivity | assumption].
  - cbn [forallb] in Hstr. apply andb_true_iff in Hstr. destruct Hstr as [Hi Hrest].
    cbn [count_categories]. unfold dict_get_or, category_is_str in *.
    destruct (dict_get i "category") as [[| | |s| |]|]; try discriminate; cbn [hashable].
    + apply IH; [assumption | now apply incr_str_keys].
    + apply IH; [assumption | now apply incr_str_keys].
Qed.

Lemma insert_desc_Forall {K : Type} (P : K * Z -> Prop) x l :
  P x -> Forall P l -> Forall P (insert_desc x l).
Proof.
  intros Hx. induction 1 as [|y l Hy Hl IH]; simpl.
  - repeat constructor. assumption.
  - destruct (snd y >? snd x); repeat constructor; assumption.
Qed.

Lemma sorted_desc_Forall {K : Type} (P : K * Z -> Prop) l :
  Forall P l -> Forall P (sorted_desc l).
Proof.
  induction 1 as [|x l Hx Hl IH]; simpl; [constructor|].
  now apply insert_desc_Forall.
Qed.

Lemma category_lines_ok (items : list (json * Z)) :
  Forall str_key items -> exists lines, category_lines items = Ok lines.
Proof.
  induction 1 as [|[k n] rest [s Hk] Hrest [lines IH]]; simpl.
  - now exists [].
  - simpl in Hk. subst k. rewrite IH. now exists ((s, n) :: lines).
Qed.

Lemma filter_all_length {A : Type} (f : A -> bool) (l : list A) :
  length (filter f l) = length l <-> forallb f l = true.
Proof.
  induction l as [|x l IH]; simpl; [tauto|].
  pose proof (filter_length_le f l) as Hle.
  destruct (f x); simpl.
  - rewrite <- IH. split; [now injection 1 | congruence].
  - split; [lia | discriminate].
Qed.

(** C3, as the specification states it, fails: for one finding of
    severity [info] the four severity figures are all zero and the total is
    one. *)
Lemma severity_figures_miss_unknown :
  exists r,
    summary_report [[("severity", JStr "info"); ("category", JStr "quality")]] = Ok r
    /\ total r = 1
    /\ n_critical r + n_high r + n_medium r + n_low r = 0
    /\ by_category r = [("quality", 1)].
Proof. eexists. repeat split. Qed.

(** C3, amended: when every finding's category is a string or absent the
    report is produced; in a report the per-category figures sum to the
    total, and the four per-severity figures sum to the number of findings
    whose severity is one of the four, which is the total exactly when every
    finding has such a severity. *)
Theorem summary_report_counts (all_issues : list dict) :
  (forallb category_is_str all_issues = true ->
     exists r, summary_report all_issues = Ok r)
  /\ (forall r, summary_report all_issues = Ok r ->
        total r = Z.of_nat (length all_issues)
        /\ sum_counts (by_category r) = total r
        /\ n_critical r + n_high r + n_medium r + n_low r
           = Z.of_nat (length (filter recognised all_issues))
        /\ (n_critical r + n_high r + n_medium r + n_low r = total r
            <-> forallb recognised all_issues = true)).
Proof.
  unfold summary_report. split.
  - intros Hstr.
    destruct (count_categories_ok all_issues [] Hstr (Forall_nil _)) as [counted [-> Hkeys]].
    destruct (category_lines_ok (sorted_desc counted)) as [lines ->];
      [now apply sorted_desc_Forall | eauto].
  - intros r H.
    destruct (count_categories all_issues []) as [counted|] eqn:Hc; [|discriminate].
    destruct (category_lines (sorted_desc counted)) as [lines|] eqn:Hl; [|discriminate].
    injection H as <-. cbn [total by_category n_critical n_high n_medium n_low].
    rewrite severity_counts_recognised.
    repeat split.
    + rewrite (category_lines_sum _ _ Hl), sum_counts_sorted_desc.
      rewrite (count_categories_sum _ _ _ Hc). reflexivity.
    + intros H. apply filter_all_length. lia.
    + intros H. apply filter_all_length in H. lia.
Qed.

(** A report with unequal category figures, in descending order. *)
Example summary_report_sorted :
  summary_report [[("severity", JStr "low"); ("category", JStr "quality")];
                  [("severity", JStr "high"); ("category", JStr "security")];
                  [("severity", JStr "high")];
                  [("severity", JStr "medium"); ("category", JStr "security")]]
  = Ok {| total := 4; n_critical := 0; n_high := 2; n_medium := 1; n_low := 1;
          by_category := [("security", 2); ("quality", 1); ("general", 1)] |}.
Proof. reflexivity. Qed.

End ReportFacts.

(** ** Review client: the pattern match *)

Section MatchFacts.

Lemma has_char_app (c : ascii) (a b : string) :
  has_char c (a ++ b) = has_char c a || has_char c b.
Proof.
  induction a as [|x a IH]; simpl; [reflexivity|].
  rewrite IH. now rewrite orb_assoc.
Qed.

Lemma append_assoc (a b c : string) : ((a ++ b) ++ c = a ++ (b ++ c))%string.
Proof. induction a as [|x a IH]; simpl; congruence. Qed.

Lemma from_first_open_skip (pre rest : string) :
  has_char "{" pre = false ->
  from_first_open (pre ++ String "{" rest) = Some (String "{" rest).
Proof.
  induction pre as [|x pre IH]; simpl; [reflexivity|].
  intros H. apply orb_false_iff in H. destruct H as [Hx Hpre].
  rewrite Hx. now apply IH.
Qed.

Lemma from_first_open_some (s t : string) :
  from_first_open s = Some t ->
  exists pre rest, s = (pre ++ t)%string /\ t = String "{" rest.
Proof.
  induction s as [|x s IH]; simpl; [discriminate|].
  destruct (Ascii.eqb_spec x "{") as [->|Hx].
  - intros H. injection H as <-. exists EmptyString, s. split; reflexivity.
  - intros H. destruct (IH H) as (pre & rest & -> & ->).
    exists (String x pre), rest. split; reflexivity.
Qed.

Lemma through_last_close_none (s : string) :
  has_char "}" s = false -> through_last_close s = None.
Proof.
  induction s as [|x s IH]; simpl; [reflexivity|].
  intros H. apply orb_false_iff in H. destruct H as [Hx Hs].
  now rewrite (IH Hs), Hx.
Qed.

Lemma through_last_close_last (a post : string) :
  has_char "}" post = false ->
  through_last_close (a ++ String "}" post) = Some (a ++ "}")%string.
Proof.
  intros Hpost. induction a as [|x a IH]; simpl.
  - now rewrite (through_last_close_none post Hpost).
  - now rewrite IH.
Qed.

Lemma through_last_close_some (s m : string) :
  through_last_close s = Some m ->
  exists b post, m = (b ++ "}")%string /\ s = (m ++ post)%string.
Proof.
  revert m. induction s as [|x s IH]; simpl; intros m; [discriminate|].
  destruct (through_last_close s) as [m'|].
  - intros H. injection H as <-. destruct (IH m' eq_refl) as (b & post & -> & ->).
    exists (String x b), post. split; reflexivity.
  - destruct (Ascii.eqb_spec x "}") as [->|Hx]; [|discriminate].
    intros H. injection H as <-. exists EmptyString, s. split; reflexivity.
Qed.

Lemma through_last_close_found (s : string) :
  has_char "}" s = true -> exists m, through_last_close s = Some m.
Proof.
  induction s as [|x s IH]; simpl; [discriminate|].
  destruct (through_last_close s) as [m|]; [eauto|].
  intros H. apply orb_true_iff in H. destruct H as [->|H]; [eauto|].
  destruct (IH H) as [m Hm]. discriminate.
Qed.

(** The object between prose without braces is what the pattern matches. *)
Lemma re_search_braces_object (pre body post : string) :
  has_char "{" pre = false ->
  has_char "}" post = false ->
  re_search_braces (pre ++ "{" ++ body ++ "}" ++ post) = Some ("{" ++ body ++ "}")%string.
Proof.
  intros Hpre Hpost. unfold re_search_braces.
  change ("{" ++ body ++ "}" ++ post)%string with (String "{" (body ++ String "}" post)).
  rewrite (from_first_open_skip _ _ Hpre).
  change (String "{" (body ++ String "}" post)) with (String "{" body ++ String "}" post)%string.
  rewrite (through_last_close_last _ _ Hpost). reflexivity.
Qed.

(** The pattern matches exactly the texts with a brace region. *)
Lemma re_search_braces_none_iff (text : string) :
  re_search_braces text = None <-> ~ brace_region text.
Proof.
  unfold re_search_braces, brace_region. split.
  - intros Hnone (a & b & c & ->).
    assert (forall a rest, has_char "}" rest = true ->
              exists s, from_first_open (a ++ String "{" rest) = Some s
                        /\ has_char "}" s = true) as Hfound.
    { clear. intros a rest Hrest. induction a as [|x a IH]; simpl.
      - exists (String "{" rest). simpl. now rewrite Hrest.
      - destruct (Ascii.eqb x "{").
        + eexists. split; [reflexivity|]. simpl.
          rewrite has_char_app. simpl. rewrite Hrest. now rewrite !orb_true_r.
        + exact IH. }
    destruct (Hfound a (b ++ String "}" c)%string) as (s & Hs & Hclose).
    { rewrite has_char_app. simpl. now rewrite orb_true_r. }
    change ("{" ++ b ++ "}" ++ c)%string with (String "{" (b ++ String "}" c)) in Hnone.
    rewrite Hs in Hnone. destruct (through_last_close_found s Hclose) as [m Hm].
    congruence.
  - intros Hno.
    destruct (from_first_open text) as [s|] eqn:Hopen; [|reflexivity].
    destruct (through_last_close s) as [m|] eqn:Hclose; [|reflexivity].
    exfalso. apply Hno.
    destruct (from_first_open_some _ _ Hopen) as (pre & rest & -> & ->).
    simpl in Hclose.
    destruct (through_last_close rest) as [m'|] eqn:Hrest; [|discriminate].
    destruct (through_last_close_some _ _ Hrest) as (b & post & -> & ->).
    exists pre, b, post. simpl. now rewrite append_assoc.
Qed.

End MatchFacts.

(** ** Review client: [review_chunk] *)

Section ReviewFacts.

Variable w : world.
Hypothesis Hknown : known_review_type w = true.

Lemma review_chunk_answered index files_chunk st text :
  api w index = ApiText text ->
  review_chunk w index files_chunk st
  = (match extract_issues w text with
     | Ok issues => Ok issues
     | Raise _ => Ok (JArr [])
     end, requested w files_chunk st).
Proof.
  intros Hapi. unfold review_chunk, bind, try_except, messages_create, bind, emit, lift.
  fold (known_review_type w). rewrite Hknown. cbn. rewrite Hapi. cbn.
  destruct (extract_issues w text); reflexivity.
Qed.

Lemma review_chunk_unanswered index files_chunk st :
  api w index = ApiRaises ->
  review_chunk w index files_chunk st = (Ok (JArr []), requested w files_chunk st).
Proof.
  intros Hapi. unfold review_chunk, bind, try_except, messages_create, bind, emit, lift.
  fold (known_review_type w). rewrite Hknown. cbn. rewrite Hapi. reflexivity.
Qed.

Lemma review_turn_empty index files_chunk all_issues st :
  fst (review_chunk w index files_chunk st) = Ok (JArr []) ->
  fst (review_turn w index files_chunk all_issues st) = Ok all_issues.
Proof.
  unfold review_turn, bind. destruct (review_chunk w index files_chunk st) as [r st'].
  simpl. intros ->. cbn. now rewrite app_nil_r.
Qed.

End ReviewFacts.

(** C6, as the specification states it, fails: the response holds one
    JSON object, with an [issues] array of one element, after prose with
    braces of its own; the pattern matches from the first brace of the
    prose, the match does not decode, and the result is the empty list. *)
Lemma stray_brace_hides_object :
  api stray_world 0 = ApiText ("See {braces}: " ++ stray_object_text)
  /\ json_loads stray_world stray_object_text = Some (JObj [("issues", JArr [JStr "x"])])
  /\ re_search_braces stray_response = Some ("{braces}: " ++ stray_object_text)%string
  /\ fst (review_chunk stray_world 0 [sample_file] initial_state) = Ok (JArr []).
Proof. repeat split. Qed.

(** C6, amended: when the response is one JSON object with an [issues]
    array, after text with no opening brace and before text with no closing
    brace, the extraction returns that array; when the response has no
    brace region it returns the empty list, and raises nothing; and
    [review_chunk] returns what the extraction returns. *)
Theorem review_chunk_extraction (w : world) :
  (forall pre body post issues_data items,
      has_char "{" pre = false ->
      has_char "}" post = false ->
      json_loads w ("{" ++ body ++ "}") = Some (JObj issues_data) ->
      dict_get issues_data "issues" = Some (JArr items) ->
      extract_issues w (pre ++ "{" ++ body ++ "}" ++ post) = Ok (JArr items))
  /\ (forall text, ~ brace_region text -> extract_issues w text = Ok (JArr []))
  /\ (forall index files_chunk st text,
        known_review_type w = true ->
        api w index = ApiText text ->
        fst (review_chunk w index files_chunk st)
        = match extract_issues w text with
          | Ok issues => Ok issues
          | Raise _ => Ok (JArr [])
          end).
Proof.
  split; [|split].
  - intros pre body post issues_data items Hpre Hpost Hloads Hissues.
    unfold extract_issues.
    rewrite (re_search_braces_object _ _ _ Hpre Hpost), Hloads.
    unfold dict_get_or. rewrite Hissues. reflexivity.
  - intros text Hno. unfold extract_issues.
    apply re_search_braces_none_iff in Hno. rewrite Hno. reflexivity.
  - intros index files_chunk st text Hknown Hapi.
    rewrite (review_chunk_answered w Hknown _ _ _ _ Hapi). reflexivity.
Qed.

Lemma review_chunk_extraction_witness :
  extract_issues sample_world sample_response
  = Ok (JArr [JObj sample_critical; JObj sample_low])
  /\ fst (review_chunk sample_world 0 [sample_file] initial_state)
     = Ok (JArr [JObj sample_critical; JObj sample_low]).
Proof.
  destruct (review_chunk_extraction sample_world) as (Hobject & _ & Hchunk).
  assert (extract_issues sample_world sample_response
          = Ok (JArr [JObj sample_critical; JObj sample_low])) as Hextract.
  { apply (Hobject "Here is my analysis: "%string sample_body " Thanks!"%string
             [("issues", JArr [JObj sample_critical; JObj sample_low])]);
      reflexivity. }
  split; [exact Hextract|].
  rewrite (Hchunk 0%nat [sample_file] initial_state sample_response eq_refl eq_refl).
  rewrite Hextract. reflexivity.
Defined.

(** The three failures on the failing service: the request that raises,
    the answer without braces, the braces around no JSON. *)
Example review_chunk_failures :
  fst (review_chunk failing_world 0 [sample_file] initial_state) = Ok (JArr [])
  /\ fst (review_chunk failing_world 1 [sample_file] initial_state) = Ok (JArr [])
  /\ extract_issues failing_world "Findings: {oops}" = Raise JSONDecodeError
  /\ fst (review_chunk failing_world 2 [sample_file] initial_state) = Ok (JArr []).
Proof. repeat split. Qed.

(** C8: when the request raises, when the response has no brace region,
    or when the matched text does not decode, [review_chunk] returns the
    empty list, and the turn of the loop over the batches ends normally with
    the list of findings as it was. *)
Theorem review_failure_contained (w : world) (index : nat)
    (files_chunk : list SourceFile) (all_issues : list json) (st : state) :
  known_review_type w = true ->
  api w index = ApiRaises
  \/ (exists text, api w index = ApiText text /\ ~ brace_region text)
  \/ (exists text json_match,
        api w index = ApiText text
        /\ re_search_braces text = Some json_match
        /\ json_loads w json_match = None) ->
  fst (review_chunk w index files_chunk st) = Ok (JArr [])
  /\ fst (review_turn w index files_chunk all_issues st) = Ok all_issues.
Proof.
  intros Hknown Hfail.
  assert (fst (review_chunk w index files_chunk st) = Ok (JArr [])) as Hempty.
  { destruct Hfail as [Hapi | [(text & Hapi & Hno) | (text & m & Hapi & Hm & Hloads)]].
    - now rewrite (review_chunk_unanswered w Hknown _ _ _ Hapi).
    - rewrite (review_chunk_answered w Hknown _ _ _ _ Hapi). unfold extract_issues.
      apply re_search_braces_none_iff in Hno. now rewrite Hno.
    - rewrite (review_chunk_answered w Hknown _ _ _ _ Hapi). unfold extract_issues.
      now rewrite Hm, Hloads. }
  split; [exact Hempty | now apply review_turn_empty].
Qed.

Lemma review_failure_contained_witness :
  fst (review_chunk failing_world 2 [sample_file] initial_state) = Ok (JArr [])
  /\ fst (review_turn failing_world 2 [sample_file] [JObj sample_low] initial_state)
     = Ok [JObj sample_low].
Proof.
  apply (review_failure_contained failing_world 2 [sample_file] [JObj sample_low]
           initial_state eq_refl).
  right. right. exists "Findings: {oops}"%string, "{oops}"%string.
  repeat split.
Defined.

(** ** Issue reporter and exit status *)

Section ExitFacts.

Lemma try_except_ret_ok {A : Type} (body : M A) (a0 : A) (st : state) :
  exists a st', try_except body (fun _ => ret a0) st = (Ok a, st').
Proof.
  unfold try_except, ret. destruct (body st) as [[a|e] st']; eauto.
Qed.

Lemma foldM_ok {A B : Type} (body : B -> A -> M B) :
  (forall acc x st, exists acc' st', body acc x st = (Ok acc', st')) ->
  forall l acc st, exists acc' st', foldM body l acc st = (Ok acc', st').
Proof.
  intros Hbody. induction l as [|x l IH]; intros acc st; simpl.
  - unfold ret. eauto.
  - unfold bind. destruct (Hbody acc x st) as (acc' & st' & ->). apply IH.
Qed.

Lemma create_issue_for_ok (w : world) created issue st :
  exists created' st', create_issue_for w created issue st = (Ok created', st').
Proof. apply try_except_ret_ok. Qed.

Lemma key_eqb_refl (v : json) : hashable v = true -> key_eqb v v = true.
Proof.
  destruct v; simpl; try discriminate; intros _;
    auto using Bool.eqb_reflx, Z.eqb_refl, String.eqb_refl.
Qed.

Lemma key_eqb_str (s : string) (v : json) :
  key_eqb (JStr s) v = true -> exists s', v = JStr s'.
Proof. destruct v; simpl; try discriminate. eauto. Qed.

(** Every category counted has an entry that equals it. *)
Lemma incr_keys (categories : list (json * Z)) (cat : json) :
  hashable cat = true ->
  (forall x, In x (map fst categories) -> In x (map fst (incr categories cat)))
  /\ exists k, In k (map fst (incr categories cat)) /\ key_eqb k cat = true.
Proof.
  intros Hcat. induction categories as [|[k n] rest [IHin [k' [IHk IHeq]]]]; simpl.
  - split; [tauto|]. exists cat. split; [now left | now apply key_eqb_refl].
  - destruct (key_eqb k cat) eqn:Hk; simpl.
    + split; [tauto|]. exists k. auto.
    + split; [intros x [->|Hx]; auto|]. exists k'. auto.
Qed.

Lemma count_categories_keys (all_issues : list dict) : forall categories counted,
  count_categories all_issues categories = Ok counted ->
  (forall x, In x (map fst categories) -> In x (map fst counted))
  /\ (forall i, In i all_issues ->
        exists k, In k (map fst counted)
                  /\ key_eqb k (dict_get_or i "category" (JStr "general")) = true).
Proof.
  induction all_issues as [|i rest IH]; intros categories counted H.
  - injection H as <-. split; [auto | intros i []].
  - cbn [count_categories] in H.
    destruct (hashable (dict_get_or i "category" (JStr "general"))) eqn:Hh; [|discriminate].
    destruct (IH _ _ H) as [Hkeep Hrest].
    destruct (incr_keys categories _ Hh) as [Hin [k [Hk Heq]]].
    split; [auto|]. intros j [<-|Hj]; [|auto].
    exists k. auto.
Qed.

Lemma category_lines_str (items : list (json * Z)) : forall lines,
  category_lines items = Ok lines -> Forall str_key items.
Proof.
  induction items as [|[k n] rest IH]; intros lines H; [constructor|].
  destruct k; try discriminate. cbn [category_lines] in H.
  destruct (category_lines rest) as [lines'|]; [|discriminate].
  constructor; [now exists s | eauto].
Qed.

Lemma insert_desc_In {K : Type} (x y : K * Z) (l : list (K * Z)) :
  In y (x :: l) -> In y (insert_desc x l).
Proof.
  induction l as [|z l IH]; [auto|].
  cbn [insert_desc]. destruct (snd z >? snd x); [|auto].
  intros [H|[H|H]].
  - right. apply IH. now left.
  - now left.
  - right. apply IH. now right.
Qed.

Lemma sorted_desc_In {K : Type} (y : K * Z) (l : list (K * Z)) :
  In y l -> In y (sorted_desc l).
Proof.
  unfold sorted_desc. induction l as [|x l IH]; [auto|].
  intros Hy. cbn [fold_right]. apply insert_desc_In.
  destruct Hy as [->|Hy]; [now left | right; auto].
Qed.

(** A report is produced only when every category is a string or absent. *)
Lemma summary_report_categories (findings : list dict) (r : report) :
  summary_report findings = Ok r -> forallb category_is_str findings = true.
Proof.
  unfold summary_report. intros H.
  destruct (count_categories findings []) as [counted|] eqn:Hc; [|discriminate].
  destruct (category_lines (sorted_desc counted)) as [lines|] eqn:Hl; [|discriminate].
  apply category_lines_str in Hl. rewrite Forall_forall in Hl.
  apply forallb_forall. intros i Hi.
  destruct (count_categories_keys _ _ _ Hc) as [_ Hkeys].
  destruct (Hkeys i Hi) as (k & Hk & Heq).
  apply in_map_iff in Hk. destruct Hk as ([k' n] & Hfst & Hk). simpl in Hfst. subst k'.
  destruct (Hl (k, n) (sorted_desc_In _ _ Hk)) as [s Hs]. simpl in Hs. subst k.
  apply key_eqb_str in Heq. destruct Heq as [s' Heq].
  unfold category_is_str. unfold dict_get_or in Heq.
  destruct (dict_get i "category") as [v|]; [now subst v | reflexivity].
Qed.

Lemma add_to_group_str by_category (s : string) issue :
  Forall str_group by_category -> Forall str_group (add_to_group by_category (JStr s) issue).
Proof.
  induction 1 as [|[k l] rest Hk Hrest IH]; simpl.
  - repeat constructor. now exists s.
  - destruct (key_eqb k (JStr s)); constructor; auto.
Qed.

Lemma group_by_category_ok (issues : list dict) : forall by_category,
  forallb category_is_str issues = true ->
  Forall str_group by_category ->
  exists grouped, group_by_category issues by_category = Ok grouped
                  /\ Forall str_group grouped.
Proof.
  induction issues as [|i rest IH]; intros by_category Hstr Hkeys.
  - exists by_category. split; [reflexivity | assumption].
  - cbn [forallb] in Hstr. apply andb_true_iff in Hstr. destruct Hstr as [Hi Hrest].
    cbn [group_by_category]. unfold dict_get_or, category_is_str in *.
    destruct (dict_get i "category") as [[| | |s| |]|]; try discriminate; cbn [hashable].
    + apply IH; [assumption | now apply add_to_group_str].
    + apply IH; [assumption | now apply add_to_group_str].
Qed.

Lemma summary_sections_ok (by_category : list (json * list dict)) :
  Forall str_group by_category -> exists sections, summary_sections by_category = Ok sections.
Proof.
  induction 1 as [|[k l] rest [s Hk] Hrest [sections IH]]; simpl.
  - now exists [].
  - simpl in Hk. subst k. rewrite IH. eauto.
Qed.

Lemma create_summary_issue_ok (w : world) (issues : list dict) (st : state) :
  forallb category_is_str issues = true ->
  exists st', create_summary_issue w issues st = (Ok tt, st').
Proof.
  intros Hstr. unfold create_summary_issue, bind, lift.
  destruct (group_by_category_ok issues [] Hstr (Forall_nil _)) as (grouped & -> & Hg).
  destruct (summary_sections_ok grouped Hg) as [sections ->].
  match goal with
  | |- context [try_except ?b _ st] =>
      destruct (try_except_ret_ok b tt st) as ([] & st' & ->)
  end.
  eauto.
Qed.

Lemma forallb_filter {A : Type} (p q : A -> bool) (l : list A) :
  forallb p l = true -> forallb p (filter q l) = true.
Proof.
  rewrite !forallb_forall. intros H x Hx. apply filter_In in Hx. now apply H.
Qed.

(** Once the report has been produced, the issue reporter ends normally,
    whatever the tracker answers. *)
Lemma create_github_issues_ok (w : world) (all_issues : list json) (findings : list dict)
    (r : report) (st : state) :
  as_dicts all_issues = Ok findings ->
  summary_report findings = Ok r ->
  exists created st', create_github_issues w all_issues st = (Ok created, st').
Proof.
  intros Hd Hr. unfold create_github_issues, bind, lift. rewrite Hd.
  destruct (foldM_ok (create_issue_for w) (create_issue_for_ok w)
              (critical_issues findings ++ high_issues findings) [] st)
    as (created & st1 & ->).
  destruct (other_issues findings) as [|i rest] eqn:Ho; [unfold ret; eauto|].
  destruct (create_summary_issue_ok w (i :: rest) st1) as [st2 ->].
  - rewrite <- Ho. apply forallb_filter. now apply summary_report_categories with r.
  - unfold ret. eauto.
Qed.

Lemma generate_summary_report_inv (w : world) (all_issues : list json) (st st' : state) :
  generate_summary_report w all_issues st = (Ok tt, st') ->
  exists findings r, as_dicts all_issues = Ok findings /\ summary_report findings = Ok r.
Proof.
  unfold generate_summary_report, bind, lift.
  destruct (as_dicts all_issues) as [findings|]; [|discriminate].
  destruct (summary_report findings) as [r|] eqn:Hr; [|discriminate].
  intros _. exists findings, r. split; [reflexivity | exact Hr].
Qed.

(** The exit status is decided before the issue reporter is reached. *)
Lemma main_status (w : world) :
  fst (main w) = if reaches_issue_stage w then 0 else 1.
Proof.
  unfold main, reaches_issue_stage, report_stage, run, bind. cbv zeta.
  destruct (init w initial_state) as [[[]|e] st0]; [|reflexivity].
  destruct (get_codebase_files w st0) as [[files|e] st1]; [|reflexivity].
  destruct (review_all w _ 0%nat [] st1) as [[all_issues|e] st2]; [|reflexivity].
  destruct (generate_summary_report w all_issues st2) as [[[]|e] st3] eqn:Hg; [|reflexivity].
  destruct all_issues as [|i rest]; [reflexivity|].
  destruct (generate_summary_report_inv _ _ _ _ Hg) as (findings & r & Hd & Hr).
  destruct (create_github_issues_ok w (i :: rest) findings r st3 Hd Hr)
    as (created & st4 & ->).
  reflexivity.
Qed.

(** C9: with either credential unset the process exits with status 1
    and has made no call at all; and the exit status does not depend on the
    answers of the issue tracker: it is 0 exactly when the set-up, the
    collection, the reviews and the report end normally, whichever label
    and issue creations fail. *)
Theorem main_exit_status (w : world) :
  (unset (env_anthropic_api_key w) = true \/ unset (env_github_token w) = true ->
   main w = (1, []))
  /\ (forall answers, fst (main (with_tracker w answers)) = fst (main w))
  /\ (fst (main w) = 0 <-> reaches_issue_stage w = true).
Proof.
  split; [|split].
  - unfold main, bind, init.
    intros [H|H].
    + rewrite H. reflexivity.
    + rewrite H. destruct (unset (env_anthropic_api_key w)); reflexivity.
  - intros answers. rewrite !main_status. reflexivity.
  - rewrite main_status. destruct (reaches_issue_stage w); split; congruence.
Qed.

(** The sample run: every call to the tracker fails, no issue is created,
    and the status is 0. *)
Example main_sample_run :
  main sample_world
  = (0,
     [Connect "48Nauts-Operator/nexus-protocol";
      Walk;
      Request "comprehensive" [sample_file];
      Sleep 5;
      WriteReport {| total := 2; n_critical := 1; n_high := 0; n_medium := 0; n_low := 1;
                     by_category := [("general", 2)] |};
      GetLabel (SeverityLabel (JStr "critical"));
      CreateLabel (SeverityLabel (JStr "critical")) "d73a4a";
      GetLabel (CategoryLabel (JStr "general"));
      CreateLabel (CategoryLabel (JStr "general")) "c5def5";
      GetLabel (NamedLabel "claude-review");
      CreateLabel (NamedLabel "claude-review") "0052cc";
      GetLabel (NamedLabel "automated");
      CreateLabel (NamedLabel "automated") "bfdadc";
      CreateIssue (FindingText (JStr "Hard-coded secret") sample_critical) [];
      CreateIssue (SummaryText 1 [("general", 1, [sample_low])])
                  [NamedLabel "claude-review"; NamedLabel "automated"; NamedLabel "summary"]]).
Proof. reflexivity. Qed.

(** Without the tracker token nothing is called. *)
Example main_without_token :
  main {| env_anthropic_api_key := Some "key";
          env_github_token := None;
          env_review_type := None;
          env_github_repository := None;
          connects := true;
          codebase := [sample_file];
          api := fun _ => ApiText sample_response;
          json_loads := sample_json_loads;
          report_writable := true;
          tracker_ok := fun _ => true |}
  = (1, []).
Proof. reflexivity. Qed.

(** An unknown review type is not caught: the first batch ends the run. *)
Example main_unknown_review_type :
  main {| env_anthropic_api_key := Some "key";
          env_github_token := Some "token";
          env_review_type := Some "style";
          env_github_repository := Some "owner/repo";
          connects := true;
          codebase := [sample_file];
          api := fun _ => ApiText sample_response;
          json_loads := sample_json_loads;
          report_writable := true;
          tracker_ok := fun _ => true |}
  = (1, [Connect "owner/repo"; Walk]).
Proof. reflexivity. Qed.

End ExitFacts.

(** * Further properties of the script *)

(** ** File collector *)

Section CollectorFacts.

Lemma entry_induction (P : entry -> Prop) :
  (forall name text, P (File name text)) ->
  (forall name entries, Forall P entries -> P (Dir name entries)) ->
  forall e, P e.
Proof.
  intros HFile HDir. fix IH 1. intros [name text|name entries].
  - apply HFile.
  - apply HDir. induction entries as [|e entries IHentries]; constructor.
    + apply IH.
    + exact IHentries.
Qed.

Lemma ends_with_iff (s ext : string) :
  ends_with s ext = true <-> exists pre, s = (pre ++ ext)%string.
Proof.
  induction s as [|c s IH]; cbn [ends_with].
  - destruct (String.eqb_spec EmptyString ext) as [<-|Hne].
    + split; [intros _; now exists EmptyString | reflexivity].
    + split; [intros H; discriminate H|]. intros [pre Hpre].
      destruct pre; simpl in Hpre; [congruence | discriminate].
  - destruct (String.eqb_spec (String c s) ext) as [<-|Hne].
    + split; [intros _; now exists EmptyString | reflexivity].
    + rewrite IH. split.
      * intros [pre ->]. now exists (String c pre).
      * intros [pre Hpre]. destruct pre as [|c' pre]; simpl in Hpre; [congruence|].
        injection Hpre as _ Hs. now exists pre.
Qed.

Lemma ends_with_path (root name ext : string) :
  ends_with name ext = true -> ends_with (path_join root name) ext = true.
Proof.
  rewrite !ends_with_iff. intros [pre ->].
  exists (root ++ "/" ++ pre)%string. unfold path_join.
  now rewrite !append_assoc.
Qed.

Lemma extension_path (root name : string) :
  existsb (ends_with name) extensions = true ->
  existsb (ends_with (path_join root name)) extensions = true.
Proof.
  rewrite !existsb_exists. intros (ext & Hin & Hext).
  exists ext. split; [assumption | now apply ends_with_path].
Qed.

Lemma read_entry_In (root : string) (e : entry) (f : SourceFile) :
  In f (read_entry root e) <->
  exists name, e = File name (Some (content f))
               /\ path f = path_join root name
               /\ existsb (ends_with name) extensions = true
               /\ len (content f) < 50000.
Proof.
  destruct e as [name text|name entries]; cbn [read_entry].
  - destruct (existsb (ends_with name) extensions) eqn:Hext.
    + destruct text as [c|].
      * destruct (Z.ltb_spec (len c) 50000) as [Hlt|Hge]; cbn [In].
        -- split.
           ++ intros [<-|[]]. exists name. simpl. auto.
           ++ intros (name' & He & Hp & _ & _). injection He as -> ->.
              left. destruct f. simpl in *. now subst.
        -- split; [tauto|]. intros (name' & He & _ & _ & Hlt).
           injection He as -> ->. lia.
      * split; [intros []|]. intros (name' & He & _). discriminate.
    + split; [intros []|]. intros (name' & He & _ & Hext' & _).
      injection He as -> _. congruence.
  - split; [intros []|]. intros (name' & He & _). discriminate.
Qed.

Lemma walk_entry_In (e : entry) : forall root f,
  In f (walk_entry root e) ->
  exists name sub, e = Dir name sub
                   /\ existsb (String.eqb name) exclude_dirs = false
                   /\ In f (walk_dir (path_join root name) sub).
Proof.
  destruct e as [name text|name sub]; cbn [walk_entry]; intros root f; [intros []|].
  destruct (existsb (String.eqb name) exclude_dirs) eqn:Hex; [intros []|].
  intros Hin. exists name, sub. auto.
Qed.

Lemma walk_dir_eligible_entry (e : entry) : forall root f,
  In f (walk_entry root e) ->
  exists name sub, e = Dir name sub
                   /\ existsb (String.eqb name) exclude_dirs = false
                   /\ eligible (path_join root name) sub f.
Proof.
  induction e as [name text|name sub IH] using entry_induction; intros root f Hin.
  - destruct Hin.
  - destruct (walk_entry_In _ _ _ Hin) as (name' & sub' & He & Hex & Hwalk).
    injection He as <- <-. exists name, sub. split; [reflexivity|]. split; [assumption|].
    unfold walk_dir in Hwalk. apply in_app_iff in Hwalk. destruct Hwalk as [Hread|Hbelow].
    + apply in_flat_map in Hread. destruct Hread as (e & He & Hf).
      apply read_entry_In in Hf. destruct Hf as (n & -> & Hp & Hext & Hlen).
      destruct f as [p c]. simpl in *. subst p. now apply eligible_here.
    + apply in_flat_map in Hbelow. destruct Hbelow as (e & He & Hf).
      rewrite Forall_forall in IH.
      destruct (IH e He _ _ Hf) as (n & sub' & -> & Hex' & Hel).
      now apply eligible_below with n sub'.
Qed.

Lemma walk_dir_sound (root : string) (entries : list entry) (f : SourceFile) :
  In f (walk_dir root entries) -> eligible root entries f.
Proof.
  unfold walk_dir. intros Hin. apply in_app_iff in Hin. destruct Hin as [Hread|Hbelow].
  - apply in_flat_map in Hread. destruct Hread as (e & He & Hf).
    apply read_entry_In in Hf. destruct Hf as (n & -> & Hp & Hext & Hlen).
    destruct f as [p c]. simpl in *. subst p. now apply eligible_here.
  - apply in_flat_map in Hbelow. destruct Hbelow as (e & He & Hf).
    destruct (walk_dir_eligible_entry e _ _ Hf) as (n & sub & -> & Hex & Hel).
    now apply eligible_below with n sub.
Qed.

Lemma walk_dir_complete (root : string) (entries : list entry) (f : SourceFile) :
  eligible root entries f -> In f (walk_dir root entries).
Proof.
  induction 1 as [root entries name c Hin Hext Hlen | root entries name sub f Hin Hex Hel IH];
    unfold walk_dir; apply in_app_iff.
  - left. apply in_flat_map. exists (File name (Some c)). split; [assumption|].
    apply read_entry_In. exists name. simpl. auto.
  - right. apply in_flat_map. exists (Dir name sub). split; [assumption|].
    cbn [walk_entry]. rewrite Hex. exact IH.
Qed.

Lemma eligible_bounds (root : string) (entries : list entry) (f : SourceFile) :
  eligible root entries f ->
  len (content f) < 50000 /\ existsb (ends_with (path f)) extensions = true.
Proof.
  induction 1 as [root entries name c Hin Hext Hlen | root entries name sub f Hin Hex Hel IH].
  - simpl. split; [assumption | now apply extension_path].
  - exact IH.
Qed.

(** X1: every collected file has fewer than 50000 characters and a path
    that ends with one of the accepted extensions. *)
Theorem collected_bounds (entries : list entry) :
  Forall (fun f => len (content f) < 50000
                   /\ existsb (ends_with (path f)) extensions = true)
         (collected entries).
Proof.
  apply Forall_forall. intros f Hin.
  apply eligible_bounds with "."%string entries. now apply walk_dir_sound.
Qed.

(** X2: the collected files are exactly the eligible ones: the readable
    files with an accepted extension and fewer than 50000 characters whose
    directories, below the working directory, are not excluded. *)
Theorem collected_eligible (entries : list entry) (f : SourceFile) :
  In f (collected entries) <-> eligible "." entries f.
Proof.
  split; [apply walk_dir_sound | apply walk_dir_complete].
Qed.

(** X3: an excluded directory is pruned with all it holds: the walk gives
    the same files, in the same order, as without it. *)
Theorem excluded_dir_pruned (root : string) (before after : list entry)
    (name : string) (sub : list entry) :
  existsb (String.eqb name) exclude_dirs = true ->
  walk_dir root (before ++ Dir name sub :: after) = walk_dir root (before ++ after).
Proof.
  intros Hex. unfold walk_dir. rewrite !flat_map_app. cbn [flat_map read_entry walk_entry].
  rewrite Hex. reflexivity.
Qed.

Lemma excluded_dir_pruned_witness :
  collected sample_tree
  = collected [File "app.py" (Some "import os");
               File "run.log" (Some "started");
               Dir "src" [File "blob.json" None; File "util.ts" (Some "export {}")];
               File "README.md" (Some "# readme")].
Proof.
  exact (excluded_dir_pruned "."
           [File "app.py" (Some "import os"); File "run.log" (Some "started")]
           [Dir "src" [File "blob.json" None; File "util.ts" (Some "export {}")];
            File "README.md" (Some "# readme")]
           "node_modules" [File "index.js" (Some "module.exports = 1")] eq_refl).
Defined.

(** The files of a directory come before those of its subdirectories. *)
Example collected_sample :
  collected sample_tree
  = [{| path := "./app.py"; content := "import os" |};
     {| path := "./README.md"; content := "# readme" |};
     {| path := "./src/util.ts"; content := "export {}" |}].
Proof. reflexivity. Qed.

End CollectorFacts.

(** ** Batcher: the greedy strategy *)

Section GreedyFacts.
Import Batcher.

Lemma flush_nonempty (cs : list (list SourceFile)) (c : list SourceFile) :
  c <> [] -> flush cs c = cs ++ [c].
Proof. destruct c; [congruence | reflexivity]. Qed.

Lemma chunk_files_In (files : list SourceFile) (max_tokens : Z) (f : SourceFile) :
  In f files <->
  exists batch, In batch (chunk_files_for_review files max_tokens) /\ In f batch.
Proof.
  unfold chunk_files_for_review.
  rewrite <- (inv_concat _ _ _ (loop_run_inv max_tokens files)) at 1.
  rewrite <- concat_flush, in_concat. reflexivity.
Qed.

Lemma chunk_files_within_aux (files : list SourceFile) (max_tokens : Z) :
  (forall f, In f files -> file_tokens f <= max_tokens) ->
  Forall (fun batch => batch_tokens batch <= max_tokens)
         (chunk_files_for_review files max_tokens).
Proof.
  intros Hsmall. apply Forall_forall. intros batch Hin.
  pose proof (chunk_files_bounded files max_tokens) as Hb.
  rewrite Forall_forall in Hb. specialize (Hb batch Hin).
  pose proof (chunk_files_all_nonempty files max_tokens) as Hne.
  rewrite Forall_forall in Hne. specialize (Hne batch Hin).
  destruct batch as [|f [|g batch]]; [congruence | | apply Hb; simpl; lia].
  simpl. rewrite Z.add_0_r. apply Hsmall.
  apply (chunk_files_In files max_tokens). exists [f]. split; [assumption | now left].
Qed.

(** X4: when no file alone is over the budget, no batch is. *)
Theorem chunk_files_all_within (files : list SourceFile) (max_tokens : Z) :
  (forall f, In f files -> file_tokens f <= max_tokens) ->
  Forall (fun batch => batch_tokens batch <= max_tokens)
         (chunk_files_for_review files max_tokens).
Proof. apply chunk_files_within_aux. Qed.

Lemma chunk_files_all_within_witness :
  Forall (fun batch => batch_tokens batch <= 3)
         (chunk_files_for_review
            [file_of_length "a.py" 8; file_of_length "b.py" 8; file_of_length "c.py" 12] 3).
Proof.
  apply chunk_files_all_within.
  intros f [<-|[<-|[<-|[]]]]; vm_compute; discriminate.
Defined.

(** X5: the files the collector returns are batched, under the default
    budget, into batches that are all within the budget: in a run no
    request is over it. *)
Theorem collected_batches_within (entries : list entry) :
  Forall (fun batch => batch_tokens batch <= default_max_tokens)
         (chunk_files_for_review (collected entries) default_max_tokens).
Proof.
  apply chunk_files_within_aux. intros f Hin.
  apply walk_dir_sound, eligible_bounds in Hin. destruct Hin as [Hlen _].
  unfold file_tokens, default_max_tokens.
  pose proof (Z.div_le_mono (len (content f)) 50000 4 ltac:(lia) ltac:(lia)) as Hdiv.
  change (50000 / 4) with 12500 in Hdiv. lia.
Qed.

Lemma tight_snoc (max_tokens : Z) (bs : list (list SourceFile)) b f rest :
  tight max_tokens (bs ++ [b]) ->
  batch_tokens b + file_tokens f > max_tokens ->
  tight max_tokens (bs ++ [b; f :: rest]).
Proof.
  intros Ht Hover. induction bs as [|a bs IH]; simpl in *.
  - apply tight_cons; [assumption | apply tight_one].
  - destruct bs as [|a' bs]; simpl in *.
    + inversion Ht; subst. apply tight_cons; [assumption|].
      apply tight_cons; [assumption | apply tight_one].
    + inversion Ht; subst. apply tight_cons; [assumption|]. now apply IH.
Qed.

Lemma tight_grow (max_tokens : Z) (bs : list (list SourceFile)) f0 r g :
  tight max_tokens (bs ++ [f0 :: r]) ->
  tight max_tokens (bs ++ [(f0 :: r) ++ [g]]).
Proof.
  intros Ht. induction bs as [|a bs IH]; simpl in *.
  - apply tight_one.
  - destruct bs as [|a' bs]; simpl in *.
    + inversion Ht; subst. apply tight_cons; [assumption | apply tight_one].
    + inversion Ht; subst. apply tight_cons; [assumption|]. now apply IH.
Qed.

Lemma tight_adjacent (max_tokens : Z) (before : list (list SourceFile)) b b' after :
  tight max_tokens (before ++ b :: b' :: after) ->
  exists f rest, b' = f :: rest /\ batch_tokens b + file_tokens f > max_tokens.
Proof.
  induction before as [|a before IH]; simpl; intros Ht.
  - inversion Ht; subst. eauto.
  - apply IH. destruct before; simpl in *; inversion Ht; subst; assumption.
Qed.

(** The greedy invariant of the loop. *)
Lemma loop_tight_step (max_tokens : Z) seen st f :
  loop_inv max_tokens seen st ->
  (current_chunk st = [] -> chunks st = []) ->
  tight max_tokens (flush (chunks st) (current_chunk st)) ->
  let st' := loop_body max_tokens st f in
  (current_chunk st' = [] -> chunks st' = [])
  /\ tight max_tokens (flush (chunks st') (current_chunk st')).
Proof.
  intros Hinv Hempty Ht. cbv zeta. unfold loop_body.
  pose proof (inv_size _ _ _ Hinv) as Hsz.
  destruct (Z.gtb_spec (current_size st + file_tokens f) max_tokens) as [Hgt|Hle];
    cbn [chunks current_chunk].
  - split; [discriminate|].
    destruct (current_chunk st) as [|c0 cr] eqn:Hcur.
    + rewrite (Hempty eq_refl). apply tight_one.
    + cbn [flush] in *. rewrite <- app_assoc. cbn [app].
      apply tight_snoc; [assumption | lia].
  - split; [intros H; now apply app_eq_nil in H|].
    destruct (current_chunk st) as [|c0 cr] eqn:Hcur.
    + rewrite (Hempty eq_refl). apply tight_one.
    + rewrite flush_nonempty by discriminate.
      cbn [flush] in Ht. now apply tight_grow.
Qed.

Lemma loop_tight_fold (max_tokens : Z) files : forall seen st,
  loop_inv max_tokens seen st ->
  (current_chunk st = [] -> chunks st = []) ->
  tight max_tokens (flush (chunks st) (current_chunk st)) ->
  tight max_tokens
    (flush (chunks (fold_left (loop_body max_tokens) files st))
           (current_chunk (fold_left (loop_body max_tokens) files st))).
Proof.
  induction files as [|f files IH]; intros seen st Hinv Hempty Ht; simpl.
  - assumption.
  - destruct (loop_tight_step max_tokens seen st f Hinv Hempty Ht) as [Hempty' Ht'].
    apply (IH (seen ++ [f])); [now apply loop_inv_step | assumption | assumption].
Qed.

Lemma chunk_files_tight (files : list SourceFile) (max_tokens : Z) :
  tight max_tokens (chunk_files_for_review files max_tokens).
Proof.
  unfold chunk_files_for_review, loop_run.
  apply (loop_tight_fold max_tokens files [] loop_init (loop_inv_init max_tokens)).
  - reflexivity.
  - apply tight_nil.
Qed.

(** X6: batching is greedy: of two consecutive batches, the first
    together with the first file of the second is over the budget. *)
Theorem chunk_files_greedy (files : list SourceFile) (max_tokens : Z)
    (before after : list (list SourceFile)) (b b' : list SourceFile) :
  chunk_files_for_review files max_tokens = before ++ b :: b' :: after ->
  exists f rest, b' = f :: rest /\ batch_tokens b + file_tokens f > max_tokens.
Proof.
  intros Heq. apply tight_adjacent with before after.
  rewrite <- Heq. apply chunk_files_tight.
Qed.

Lemma chunk_files_greedy_witness :
  let a := file_of_length "a.py" 8 in
  let b := file_of_length "b.py" 8 in
  let c := file_of_length "c.py" 12 in
  exists f rest, [c] = f :: rest /\ batch_tokens [a; b] + file_tokens f > 5.
Proof.
  cbv zeta.
  exact (chunk_files_greedy
           [file_of_length "a.py" 8; file_of_length "b.py" 8; file_of_length "c.py" 12] 5
           [] [] [file_of_length "a.py" 8; file_of_length "b.py" 8]
           [file_of_length "c.py" 12] eq_refl).
Defined.

Lemma loop_fits_fold (max_tokens : Z) files : forall cur,
  batch_tokens cur + batch_tokens files <= max_tokens ->
  fold_left (loop_body max_tokens) files
            {| chunks := []; current_chunk := cur; current_size := batch_tokens cur |}
  = {| chunks := []; current_chunk := cur ++ files;
       current_size := batch_tokens (cur ++ files) |}.
Proof.
  induction files as [|f files IH]; intros cur Hfit; simpl.
  - now rewrite app_nil_r.
  - simpl in Hfit. pose proof (batch_tokens_nonneg files) as Hrest.
    unfold loop_body at 2. cbn [current_size current_chunk chunks].
    destruct (Z.gtb_spec (batch_tokens cur + file_tokens f) max_tokens) as [Hgt|Hle]; [lia|].
    replace (batch_tokens cur + file_tokens f) with (batch_tokens (cur ++ [f]))
      by (rewrite batch_tokens_app; simpl; lia).
    rewrite IH.
    + now rewrite <- app_assoc.
    + rewrite batch_tokens_app. simpl. lia.
Qed.

(** X7: files that fit the budget together are one batch. *)
Theorem chunk_files_single (files : list SourceFile) (max_tokens : Z) :
  files <> [] ->
  batch_tokens files <= max_tokens ->
  chunk_files_for_review files max_tokens = [files].
Proof.
  intros Hne Hfit.
  assert (batch_tokens [] + batch_tokens files <= max_tokens) as Hfit'
    by (change (batch_tokens []) with 0; lia).
  pose proof (loop_fits_fold max_tokens files [] Hfit') as Hrun.
  unfold chunk_files_for_review, loop_run, loop_init.
  change (batch_tokens []) with 0 in Hrun at 1. rewrite Hrun.
  cbn [chunks current_chunk app]. now rewrite flush_nonempty.
Qed.

Lemma chunk_files_single_witness :
  chunk_files_for_review [file_of_length "a.py" 8; file_of_length "b.py" 8] 4
  = [[file_of_length "a.py" 8; file_of_length "b.py" 8]].
Proof.
  apply chunk_files_single; [discriminate | vm_compute; discriminate].
Defined.

Lemma concat_length_nonempty {A : Type} (l : list (list A)) :
  Forall (fun b => b <> []) l -> (length l <= length (concat l))%nat.
Proof.
  induction 1 as [|b l Hb Hl IH]; simpl; [lia|].
  rewrite length_app. destruct b; [congruence | simpl; lia].
Qed.

(** X8: there are no more batches than files. *)
Theorem chunk_files_count (files : list SourceFile) (max_tokens : Z) :
  (length (chunk_files_for_review files max_tokens) <= length files)%nat.
Proof.
  pose proof (concat_length_nonempty _ (chunk_files_all_nonempty files max_tokens)) as H.
  unfold chunk_files_for_review in H at 2.
  rewrite concat_flush, (inv_concat _ _ _ (loop_run_inv max_tokens files)) in H.
  exact H.
Qed.

End GreedyFacts.

(** ** Review client: the match and the requests *)

Section RequestFacts.

Lemma from_first_open_prefix (s t : string) :
  from_first_open s = Some t ->
  exists pre rest, s = (pre ++ t)%string /\ t = String "{" rest
                   /\ has_char "{" pre = false.
Proof.
  induction s as [|x s IH]; simpl; [discriminate|].
  destruct (Ascii.eqb x "{") eqn:Hx.
  - intros H. injection H as <-. apply Ascii.eqb_eq in Hx. subst x.
    exists EmptyString, s. repeat split.
  - intros H. destruct (IH H) as (pre & rest & -> & -> & Hpre).
    exists (String x pre), rest. simpl. rewrite Hx, Hpre. repeat split.
Qed.

Lemma through_last_close_suffix (s m : string) :
  through_last_close s = Some m ->
  exists b post, m = (b ++ "}")%string /\ s = (m ++ post)%string
                 /\ has_char "}" post = false.
Proof.
  revert m. induction s as [|x s IH]; simpl; intros m; [discriminate|].
  destruct (through_last_close s) as [m'|] eqn:Hs.
  - intros H. injection H as <-. destruct (IH m' eq_refl) as (b & post & -> & -> & Hpost).
    exists (String x b), post. repeat split. assumption.
  - destruct (Ascii.eqb_spec x "}") as [->|Hx]; [|discriminate].
    intros H. injection H as <-. exists EmptyString, s. repeat split.
    destruct (has_char "}" s) eqn:Hc; [|reflexivity].
    destruct (through_last_close_found s Hc) as [m Hm]. congruence.
Qed.

(** X9: the pattern matches a text exactly when the text has an opening
    brace with a closing brace after it, and the match then runs from the
    first opening brace of the text to its last closing brace. *)
Theorem re_search_braces_match (text json_match : string) :
  re_search_braces text = Some json_match <->
  exists pre body post,
    text = (pre ++ "{" ++ body ++ "}" ++ post)%string
    /\ has_char "{" pre = false
    /\ has_char "}" post = false
    /\ json_match = ("{" ++ body ++ "}")%string.
Proof.
  split.
  - unfold re_search_braces.
    destruct (from_first_open text) as [s|] eqn:Hopen; [|discriminate].
    intros Hclose.
    destruct (from_first_open_prefix _ _ Hopen) as (pre & rest & -> & -> & Hpre).
    simpl in Hclose.
    destruct (through_last_close rest) as [m|] eqn:Hrest; [|discriminate].
    injection Hclose as <-.
    destruct (through_last_close_suffix _ _ Hrest) as (b & post & -> & -> & Hpost).
    exists pre, b, post. simpl. rewrite append_assoc. auto.
  - intros (pre & body & post & -> & Hpre & Hpost & ->).
    now apply re_search_braces_object.
Qed.

Lemma review_chunk_result (w : world) (index : nat) (files_chunk : list SourceFile)
    (st : state) :
  known_review_type w = true ->
  review_chunk w index files_chunk st = (Ok (batch_result w index), requested w files_chunk st).
Proof.
  intros Hknown. unfold batch_result. destruct (api w index) as [|text] eqn:Hapi.
  - now apply review_chunk_unanswered.
  - rewrite (review_chunk_answered w Hknown _ _ _ _ Hapi).
    destruct (extract_issues w text); reflexivity.
Qed.

Lemma review_chunk_unknown (w : world) (index : nat) (files_chunk : list SourceFile)
    (st : state) :
  known_review_type w = false ->
  review_chunk w index files_chunk st = (Raise KeyError, st).
Proof.
  intros Hunknown. unfold review_chunk, bind. fold (known_review_type w).
  rewrite Hunknown. reflexivity.
Qed.

(** X10: with one of the five review types, [review_chunk] never raises,
    whatever the service answers and whatever the decoder does with it, and
    it sends exactly one request. *)
Theorem review_chunk_never_raises (w : world) (index : nat)
    (files_chunk : list SourceFile) (st : state) :
  known_review_type w = true ->
  exists issues,
    review_chunk w index files_chunk st
    = (Ok issues,
       {| trace := trace st ++ [Request (review_type w) files_chunk];
          tracker_calls := tracker_calls st |}).
Proof.
  intros Hknown. exists (batch_result w index). now apply review_chunk_result.
Qed.

Lemma review_chunk_never_raises_witness :
  exists issues,
    review_chunk failing_world 0 [sample_file] initial_state
    = (Ok issues,
       {| trace := [Request "security" [sample_file]]; tracker_calls := 0 |}).
Proof.
  exact (review_chunk_never_raises failing_world 0 [sample_file] initial_state eq_refl).
Defined.

Lemma review_turn_ok (w : world) index chunk all_issues st all_issues' st' :
  review_turn w index chunk all_issues st = (Ok all_issues', st') ->
  known_review_type w = true
  /\ extend all_issues (batch_result w index) = Ok all_issues'
  /\ trace st' = trace st ++ [Request (review_type w) chunk; Sleep 5]
  /\ tracker_calls st' = tracker_calls st.
Proof.
  unfold review_turn, bind. destruct (known_review_type w) eqn:Hknown.
  - rewrite (review_chunk_result w _ _ _ Hknown). unfold lift, emit, ret, requested.
    destruct (extend all_issues (batch_result w index)) as [l|]; [|discriminate].
    cbn. intros H. injection H as <- <-. cbn. rewrite <- app_assoc. auto.
  - rewrite (review_chunk_unknown w _ _ _ Hknown). discriminate.
Qed.

(** X11: a review of the batches that ends normally has sent one request
    per batch, in the order of the batches, each followed by the pause of
    five seconds, and has made no call to the issue tracker. *)
Theorem review_all_requests (w : world) (chunks : list (list SourceFile)) :
  forall index all_issues st all_issues' st',
    review_all w chunks index all_issues st = (Ok all_issues', st') ->
    trace st' = trace st ++ review_events w chunks
    /\ tracker_calls st' = tracker_calls st.
Proof.
  induction chunks as [|chunk rest IH]; intros index all_issues st all_issues' st' H.
  - injection H as _ <-. simpl. now rewrite app_nil_r.
  - cbn [review_all] in H. unfold bind in H.
    destruct (review_turn w index chunk all_issues st) as [[acc|e] st1] eqn:Hturn;
      [|discriminate].
    destruct (review_turn_ok _ _ _ _ _ _ _ Hturn) as (_ & _ & Htrace & Hcalls).
    destruct (IH _ _ _ _ _ H) as [Htrace' Hcalls'].
    split; [|congruence].
    rewrite Htrace', Htrace, <- app_assoc. reflexivity.
Qed.

Lemma review_all_requests_witness :
  exists all_issues st',
    review_all sample_world [[sample_file]; []] 0 [] initial_state = (Ok all_issues, st')
    /\ trace st' = [Request "comprehensive" [sample_file]; Sleep 5;
                    Request "comprehensive" []; Sleep 5]
    /\ tracker_calls st' = 0%nat.
Proof.
  eexists. eexists. split; [reflexivity|].
  exact (review_all_requests sample_world [[sample_file]; []] 0 [] initial_state _ _ eq_refl).
Defined.

(** X12: with one of the five review types, when every batch yields a
    list, the findings are gathered in the order of the batches: the result
    is the concatenation of what the batches yield. *)
Theorem review_all_gathers (w : world) (chunks : list (list SourceFile)) :
  forall index all_issues st,
    known_review_type w = true ->
    (forall i, (index <= i < index + length chunks)%nat ->
               exists items, batch_result w i = JArr items) ->
    fst (review_all w chunks index all_issues st)
    = Ok (all_issues
          ++ flat_map (fun i => array_items (batch_result w i))
                      (seq index (length chunks))).
Proof.
  induction chunks as [|chunk rest IH]; intros index all_issues st Hknown Harr.
  - simpl. now rewrite app_nil_r.
  - cbn [review_all]. unfold bind, review_turn, bind.
    rewrite (review_chunk_result w _ _ _ Hknown).
    destruct (Harr index ltac:(simpl; lia)) as [items Hitems].
    unfold lift, emit, ret. rewrite Hitems. cbn [extend].
    rewrite IH; [|assumption|].
    + cbn [length seq flat_map]. rewrite Hitems. cbn [array_items].
      now rewrite <- app_assoc.
    + intros i Hi. apply Harr. simpl. lia.
Qed.

Lemma review_all_gathers_witness :
  fst (review_all sample_world [[sample_file]; [sample_file]] 0 [] initial_state)
  = Ok [JObj sample_critical; JObj sample_low; JObj sample_critical; JObj sample_low].
Proof.
  apply (review_all_gathers sample_world [[sample_file]; [sample_file]] 0 [] initial_state
           eq_refl).
  intros i _. eexists. reflexivity.
Defined.

End RequestFacts.

(** ** Issue reporter: the issues created *)

Section ReporterFacts.

Variable w : world.

Lemma label_exists_result (l : label) (st : state) :
  exists st',
    label_exists w l st
    = (Ok (tracker_ok w (tracker_calls st) || tracker_ok w (S (tracker_calls st))), st').
Proof.
  unfold label_exists, try_except, bind, tracker_call, ret.
  destruct (tracker_ok w (tracker_calls st)); cbn; [eauto|].
  destruct (tracker_ok w (S (tracker_calls st))); cbn; eauto.
Qed.

(** What one turn of the loop over the critical and high findings does to
    the list of created issues: it leaves it, or adds the issue of the
    finding, which then has a title. *)
Lemma create_issue_for_cases (created : list issue_text) (issue : dict) (st : state) :
  exists st',
    create_issue_for w created issue st = (Ok created, st')
    \/ exists title,
         dict_get issue "title" = Some title
         /\ create_issue_for w created issue st
            = (Ok (created ++ [FindingText title issue]), st').
Proof.
  unfold create_issue_for, try_except, bind, lift, dict_item.
  destruct (dict_get issue "title") as [title|]; [|unfold ret; eauto].
  match goal with
  | |- context [filterM ?p ?l st] => destruct (filterM p l st) as [[existing|e] st1]
  end; [|unfold ret; eauto].
  unfold tracker_call, emit, ret.
  destruct (tracker_ok w (tracker_calls st1)); cbn; eauto.
Qed.

Lemma foldM_create_sound (l : list dict) : forall created st created' st',
  foldM (create_issue_for w) l created st = (Ok created', st') ->
  forall x, In x created' ->
            In x created
            \/ exists i title, x = FindingText title i /\ In i l
                               /\ dict_get i "title" = Some title.
Proof.
  induction l as [|i l IH]; intros created st created' st' H x Hx.
  - injection H as <- _. now left.
  - cbn [foldM] in H. unfold bind in H.
    destruct (create_issue_for_cases created i st) as [st1 [Hsame|(title & Htitle & Hadd)]].
    + rewrite Hsame in H. destruct (IH _ _ _ _ H x Hx) as [Hin|(j & t & -> & Hj & Ht)];
        [now left|]. right. exists j, t. simpl. auto.
    + rewrite Hadd in H. destruct (IH _ _ _ _ H x Hx) as [Hin|(j & t & -> & Hj & Ht)].
      * apply in_app_iff in Hin. destruct Hin as [Hin|[<-|[]]]; [now left|].
        right. exists i, title. simpl. auto.
      * right. exists j, t. simpl. auto.
Qed.

Lemma create_github_issues_created (issues : list json) (st : state)
    (created : list issue_text) (st' : state) :
  create_github_issues w issues st = (Ok created, st') ->
  exists findings st1,
    as_dicts issues = Ok findings
    /\ foldM (create_issue_for w) (critical_issues findings ++ high_issues findings) [] st
       = (Ok created, st1).
Proof.
  unfold create_github_issues, bind, lift.
  destruct (as_dicts issues) as [findings|]; [|discriminate].
  destruct (foldM (create_issue_for w) _ [] st) as [[created0|e] st1] eqn:Hfold;
    [|discriminate].
  intros H. exists findings, st1. split; [reflexivity|].
  destruct (other_issues findings).
  - injection H as <- _. exact Hfold.
  - destruct (create_summary_issue w _ st1) as [[[]|e] st2]; [|discriminate].
    injection H as <- _. exact Hfold.
Qed.

End ReporterFacts.

Section CallFacts.

Variable w : world.
Variable P : event -> Prop.

Lemma adds_refl (st : state) : adds P st st.
Proof. exists []. split; [now rewrite app_nil_r | constructor]. Qed.

Lemma adds_trans (st1 st2 st3 : state) : adds P st1 st2 -> adds P st2 st3 -> adds P st1 st3.
Proof.
  intros (e1 & H1 & Hp1) (e2 & H2 & Hp2). exists (e1 ++ e2). split.
  - now rewrite H2, H1, app_assoc.
  - apply Forall_app. auto.
Qed.

Lemma adds_emit (e : event) (st : state) : P e -> adds P st (snd (emit e st)).
Proof. intros He. exists [e]. split; [reflexivity | repeat constructor; assumption]. Qed.

Lemma adds_tracker_call (e : event) (st : state) :
  P e -> adds P st (snd (tracker_call w e st)).
Proof. intros He. exists [e]. split; [reflexivity | repeat constructor; assumption]. Qed.

Hypothesis Hget : forall l, P (GetLabel l).
Hypothesis Hcreate : forall l color, P (CreateLabel l color).
Hypothesis Hsleep : forall seconds, P (Sleep seconds).

Lemma label_exists_adds (l : label) (st : state) : adds P st (snd (label_exists w l st)).
Proof.
  unfold label_exists, try_except, bind, ret.
  pose proof (adds_tracker_call (GetLabel l) st (Hget l)) as H1.
  destruct (tracker_call w (GetLabel l) st) as [[[]|e] st1]; [exact H1|].
  apply adds_trans with st1; [exact H1|]. cbv beta iota.
  pose proof (adds_tracker_call (CreateLabel l (label_color l)) st1 (Hcreate _ _)) as H2.
  destruct (tracker_call w (CreateLabel l (label_color l)) st1) as [[[]|e'] st2]; exact H2.
Qed.

Lemma filterM_label_adds (labels : list label) : forall st,
  adds P st (snd (filterM (label_exists w) labels st)).
Proof.
  induction labels as [|l labels IH]; intros st; cbn [filterM].
  - apply adds_refl.
  - unfold bind. pose proof (label_exists_adds l st) as Hl.
    destruct (label_exists w l st) as [[keep|e] st1]; [|exact Hl].
    apply adds_trans with st1; [exact Hl|]. cbv beta iota.
    pose proof (IH st1) as Hrest.
    destruct (filterM (label_exists w) labels st1) as [[rest|e] st2]; exact Hrest.
Qed.

Lemma create_issue_for_adds (created : list issue_text) (issue : dict) (st : state) :
  (forall title labels,
      dict_get issue "title" = Some title ->
      P (CreateIssue (FindingText title issue) labels)) ->
  adds P st (snd (create_issue_for w created issue st)).
Proof.
  intros Hissue. unfold create_issue_for, try_except, bind, lift, dict_item.
  destruct (dict_get issue "title") as [title|] eqn:Htitle; [|apply adds_refl].
  match goal with
  | |- context [filterM ?p ?l st] =>
      pose proof (filterM_label_adds l st) as Hlabels;
      destruct (filterM p l st) as [[existing|e] st1]
  end; [|exact Hlabels].
  apply adds_trans with st1; [exact Hlabels|]. cbv beta iota.
  pose proof (adds_tracker_call (CreateIssue (FindingText title issue) existing) st1
                (Hissue title existing eq_refl)) as Hcall.
  destruct (tracker_call w (CreateIssue (FindingText title issue) existing) st1)
    as [[[]|e] st2]; [|exact Hcall].
  apply adds_trans with st2; [exact Hcall|]. cbv beta iota.
  now apply (adds_emit (Sleep 2)).
Qed.

Lemma foldM_create_adds (l : list dict) : forall created st,
  (forall issue title labels,
      In issue l -> dict_get issue "title" = Some title ->
      P (CreateIssue (FindingText title issue) labels)) ->
  adds P st (snd (foldM (create_issue_for w) l created st)).
Proof.
  induction l as [|i l IH]; intros created st Hl; cbn [foldM].
  - apply adds_refl.
  - unfold bind.
    pose proof (create_issue_for_adds created i st
                  (fun title labels => Hl i title labels (or_introl eq_refl))) as Hi.
    destruct (create_issue_for w created i st) as [[created'|e] st1]; [|exact Hi].
    apply adds_trans with st1; [exact Hi|]. cbv beta iota.
    apply IH. intros issue title labels Hin. apply Hl. now right.
Qed.

Hypothesis Hsummary : forall count sections labels,
  P (CreateIssue (SummaryText count sections) labels).

Lemma create_summary_issue_adds (issues : list dict) (st : state) :
  adds P st (snd (create_summary_issue w issues st)).
Proof.
  unfold create_summary_issue, bind, lift, try_except, ret.
  destruct (group_by_category issues []) as [by_category|]; [|apply adds_refl].
  destruct (summary_sections by_category) as [sections|]; [|apply adds_refl].
  match goal with
  | |- context [tracker_call w ?e st] =>
      pose proof (adds_tracker_call e st (Hsummary _ _ _)) as Hcall;
      destruct (tracker_call w e st) as [[[]|e'] st1]
  end; exact Hcall.
Qed.

End CallFacts.

Lemma as_dicts_In (issues : list json) : forall findings finding,
  as_dicts issues = Ok findings -> In finding findings -> In (JObj finding) issues.
Proof.
  induction issues as [|v issues IH]; intros findings finding Hd Hin.
  - injection Hd as <-. destruct Hin.
  - cbn [as_dicts] in Hd. destruct v; try discriminate.
    destruct (as_dicts issues) as [ds|]; [|discriminate].
    injection Hd as <-. destruct Hin as [->|Hin]; [now left | right; eauto].
Qed.

Lemma critical_or_high (findings : list dict) (finding : dict) :
  In finding (critical_issues findings ++ high_issues findings) ->
  In finding findings
  /\ (dict_get finding "severity" = Some (JStr "critical")
      \/ dict_get finding "severity" = Some (JStr "high")).
Proof.
  intros Hi. apply in_app_iff in Hi. unfold critical_issues, high_issues in Hi.
  rewrite !filter_In, !get_eq_str_true in Hi. tauto.
Qed.

Lemma create_github_issues_adds (w : world) (issues : list json) (findings : list dict)
    (st : state) :
  as_dicts issues = Ok findings ->
  adds (finding_call_ok (critical_issues findings ++ high_issues findings))
       st (snd (create_github_issues w issues st)).
Proof.
  intros Hd. unfold create_github_issues, bind, lift. rewrite Hd.
  set (allowed := critical_issues findings ++ high_issues findings).
  pose proof (foldM_create_adds w (finding_call_ok allowed)
                (fun _ => I) (fun _ _ => I) (fun _ => I) allowed [] st
                (fun issue title labels Hin Ht => conj Hin Ht)) as Hfold.
  destruct (foldM (create_issue_for w) allowed [] st) as [[created|e] st1]; [|exact Hfold].
  simpl in Hfold. destruct (other_issues findings) as [|i rest]; [exact Hfold|].
  pose proof (create_summary_issue_adds w (finding_call_ok allowed)
                (fun _ _ _ => I) (i :: rest) st1) as Hsum.
  destruct (create_summary_issue w (i :: rest) st1) as [[[]|e] st2];
    apply (adds_trans _ _ _ _ Hfold); exact Hsum.
Qed.

(** X13: whatever the tracker answers and however the reporter ends, every
    call it makes to create the issue of a finding is for a finding of the
    input of severity [critical] or [high] that has a title, under that
    title; and so is every issue it returns as created.  No issue of its
    own is asked for any other finding. *)
Theorem created_issues_sound (w : world) (issues : list json) (st : state) :
  exists events,
    trace (snd (create_github_issues w issues st)) = trace st ++ events
    /\ (forall title finding labels,
          In (CreateIssue (FindingText title finding) labels) events ->
          In (JObj finding) issues
          /\ dict_get finding "title" = Some title
          /\ (dict_get finding "severity" = Some (JStr "critical")
              \/ dict_get finding "severity" = Some (JStr "high")))
    /\ (forall created x,
          fst (create_github_issues w issues st) = Ok created ->
          In x created ->
          exists finding title,
            x = FindingText title finding
            /\ In (JObj finding) issues
            /\ dict_get finding "title" = Some title
            /\ (dict_get finding "severity" = Some (JStr "critical")
                \/ dict_get finding "severity" = Some (JStr "high"))).
Proof.
  destruct (as_dicts issues) as [findings|e] eqn:Hd.
  - destruct (create_github_issues_adds w issues findings st Hd) as (events & Htrace & Hall).
    exists events. split; [exact Htrace|]. split.
    + intros title finding labels Hin. rewrite Forall_forall in Hall.
      destruct (Hall _ Hin) as [Hallowed Htitle].
      destruct (critical_or_high _ _ Hallowed) as [Hfinding Hsev].
      split; [now apply as_dicts_In with findings | auto].
    + intros created x Hok Hx.
      destruct (create_github_issues w issues st) as [r st'] eqn:Hrun.
      simpl in Hok. subst r.
      destruct (create_github_issues_created w _ _ _ _ Hrun) as (findings' & st1 & Hd' & Hfold).
      rewrite Hd in Hd'. injection Hd' as <-.
      destruct (foldM_create_sound w _ _ _ _ _ Hfold x Hx) as [[]|(i & t & -> & Hi & Ht)].
      destruct (critical_or_high _ _ Hi) as [Hfinding Hsev].
      exists i, t. split; [reflexivity|].
      split; [now apply as_dicts_In with findings | auto].
  - exists []. unfold create_github_issues, bind, lift. rewrite Hd. cbn [fst snd].
    split; [now rewrite app_nil_r|]. split; [intros ? ? ? []|]. intros ? ? H. discriminate H.
Qed.

(** With a tracker that accepts every call: one issue, for the critical
    finding; the low one is only in the summary. *)
Example created_issues_sample :
  filter (fun e => match e with CreateIssue _ _ => true | _ => false end)
         (trace (snd (create_github_issues working_world
                        [JObj sample_critical; JObj sample_low] initial_state)))
  = [CreateIssue (FindingText (JStr "Hard-coded secret") sample_critical)
       [SeverityLabel (JStr "critical"); CategoryLabel (JStr "general");
        NamedLabel "claude-review"; NamedLabel "automated"];
     CreateIssue (SummaryText 1 [("general", 1, [sample_low])])
       [NamedLabel "claude-review"; NamedLabel "automated"; NamedLabel "summary"]].
Proof. reflexivity. Qed.

Section TrackerAnswers.

Variable w : world.

Lemma create_issue_for_accepted (created : list issue_text) (issue : dict) (st : state) :
  (forall n, tracker_ok w n = true) ->
  exists st', create_issue_for w created issue st = (Ok (created ++ issues_of [issue]), st').
Proof.
  intros Hok. unfold create_issue_for, try_except, bind, lift, dict_item, issues_of.
  cbn [flat_map]. destruct (dict_get issue "title") as [title|]; cbn [app].
  - cbn [filterM]. unfold bind, label_exists, try_except, bind, tracker_call, ret, emit.
    cbn. rewrite !Hok. cbn. eauto.
  - unfold ret. rewrite app_nil_r. eauto.
Qed.

Lemma create_issue_for_refused (created : list issue_text) (issue : dict) (st : state) :
  (forall n, tracker_ok w n = false) ->
  exists st', create_issue_for w created issue st = (Ok created, st').
Proof.
  intros Hfail. unfold create_issue_for, try_except, bind, lift, dict_item.
  destruct (dict_get issue "title") as [title|].
  - cbn [filterM]. unfold bind, label_exists, try_except, bind, tracker_call, ret, emit.
    cbn. rewrite !Hfail. cbn. eauto.
  - unfold ret. eauto.
Qed.

Lemma foldM_create_accepted (l : list dict) : forall created st,
  (forall n, tracker_ok w n = true) ->
  exists st', foldM (create_issue_for w) l created st = (Ok (created ++ issues_of l), st').
Proof.
  induction l as [|i l IH]; intros created st Hok.
  - exists st. cbn. unfold ret. now rewrite app_nil_r.
  - cbn [foldM]. unfold bind.
    destruct (create_issue_for_accepted created i st Hok) as [st1 ->].
    destruct (IH (created ++ issues_of [i]) st1 Hok) as [st2 ->].
    exists st2. unfold issues_of. cbn [flat_map]. now rewrite app_nil_r, <- app_assoc.
Qed.

Lemma foldM_create_refused (l : list dict) : forall created st,
  (forall n, tracker_ok w n = false) ->
  exists st', foldM (create_issue_for w) l created st = (Ok created, st').
Proof.
  induction l as [|i l IH]; intros created st Hfail.
  - exists st. reflexivity.
  - cbn [foldM]. unfold bind.
    destruct (create_issue_for_refused created i st Hfail) as [st1 ->].
    apply IH, Hfail.
Qed.

Lemma create_github_issues_fold (issues : list json) (findings : list dict)
    (created : list issue_text) (st st1 : state) :
  as_dicts issues = Ok findings ->
  forallb category_is_str (other_issues findings) = true ->
  foldM (create_issue_for w) (critical_issues findings ++ high_issues findings) [] st
  = (Ok created, st1) ->
  fst (create_github_issues w issues st) = Ok created.
Proof.
  intros Hd Hstr Hfold. unfold create_github_issues, bind, lift. rewrite Hd, Hfold.
  destruct (other_issues findings) as [|i rest]; [reflexivity|].
  destruct (create_summary_issue_ok w (i :: rest) st1 Hstr) as [st2 ->]. reflexivity.
Qed.

End TrackerAnswers.

(** X14: when the tracker accepts every call, every critical and every
    high finding that has a title gets an issue of its own, the critical
    ones first, each group in the order of the findings; a finding without
    a title gets none. *)
Theorem created_when_tracker_accepts (w : world) (issues : list json)
    (findings : list dict) (st : state) :
  (forall n, tracker_ok w n = true) ->
  as_dicts issues = Ok findings ->
  forallb category_is_str (other_issues findings) = true ->
  fst (create_github_issues w issues st)
  = Ok (issues_of (critical_issues findings) ++ issues_of (high_issues findings)).
Proof.
  intros Hok Hd Hstr.
  destruct (foldM_create_accepted w (critical_issues findings ++ high_issues findings)
              [] st Hok) as [st1 Hfold].
  rewrite (create_github_issues_fold w _ _ _ _ _ Hd Hstr Hfold).
  unfold issues_of. now rewrite flat_map_app.
Qed.

Lemma created_when_tracker_accepts_witness :
  fst (create_github_issues working_world
         [JObj sample_low; JObj [("severity", JStr "high")]; JObj sample_critical]
         initial_state)
  = Ok [FindingText (JStr "Hard-coded secret") sample_critical].
Proof.
  exact (created_when_tracker_accepts working_world
           [JObj sample_low; JObj [("severity", JStr "high")]; JObj sample_critical]
           [sample_low; [("severity", JStr "high")]; sample_critical]
           initial_state (fun _ => eq_refl) eq_refl eq_refl).
Defined.

(** X15: when the tracker refuses every call, no issue is counted as
    created, and the reporter still ends normally. *)
Theorem created_when_tracker_refuses (w : world) (issues : list json)
    (findings : list dict) (st : state) :
  (forall n, tracker_ok w n = false) ->
  as_dicts issues = Ok findings ->
  forallb category_is_str (other_issues findings) = true ->
  fst (create_github_issues w issues st) = Ok [].
Proof.
  intros Hfail Hd Hstr.
  destruct (foldM_create_refused w (critical_issues findings ++ high_issues findings)
              [] st Hfail) as [st1 Hfold].
  exact (create_github_issues_fold w _ _ _ _ _ Hd Hstr Hfold).
Qed.

Lemma created_when_tracker_refuses_witness :
  fst (create_github_issues sample_world [JObj sample_critical; JObj sample_low]
         initial_state)
  = Ok [].
Proof.
  exact (created_when_tracker_refuses sample_world [JObj sample_critical; JObj sample_low]
           [sample_critical; sample_low] initial_state (fun _ => eq_refl) eq_refl eq_refl).
Defined.

(** ** Summary issue: the sections *)

Section SectionFacts.

Lemma groups_total_add (by_category : list (json * list dict)) (cat : json) (issue : dict) :
  groups_total (add_to_group by_category cat issue) = S (groups_total by_category).
Proof.
  induction by_category as [|[k l] rest IH]; simpl; [reflexivity|].
  destruct (key_eqb k cat); simpl.
  - rewrite length_app. simpl. lia.
  - rewrite IH. lia.
Qed.

Lemma add_to_group_nonempty (by_category : list (json * list dict)) cat issue :
  Forall (fun g => snd g <> []) by_category ->
  Forall (fun g => snd g <> []) (add_to_group by_category cat issue).
Proof.
  induction 1 as [|[k l] rest Hl Hrest IH]; simpl.
  - repeat constructor. discriminate.
  - destruct (key_eqb k cat); constructor; auto.
    simpl. intros H. now apply app_eq_nil in H.
Qed.

Lemma group_by_category_total (issues : list dict) : forall by_category grouped,
  group_by_category issues by_category = Ok grouped ->
  Forall (fun g => snd g <> []) by_category ->
  groups_total grouped = (groups_total by_category + length issues)%nat
  /\ Forall (fun g => snd g <> []) grouped.
Proof.
  induction issues as [|i rest IH]; intros by_category grouped H Hne.
  - injection H as <-. simpl. split; [lia | assumption].
  - cbn [group_by_category] in H.
    destruct (hashable (dict_get_or i "category" (JStr "general"))); [|discriminate].
    destruct (IH _ _ H (add_to_group_nonempty _ _ _ Hne)) as [Htotal Hne'].
    split; [|assumption]. rewrite Htotal, groups_total_add. simpl. lia.
Qed.

Lemma summary_sections_cons (c : string) (l : list dict) rest :
  summary_sections ((JStr c, l) :: rest)
  = match summary_sections rest with
    | Ok sections => Ok ((c, Z.of_nat (length l), firstn 10 l) :: sections)
    | Raise e => Raise e
    end.
Proof. reflexivity. Qed.

Lemma summary_sections_total (by_category : list (json * list dict)) : forall sections,
  summary_sections by_category = Ok sections ->
  Forall (fun g => snd g <> []) by_category ->
  sections_total sections = Z.of_nat (groups_total by_category)
  /\ Forall (fun s => 0 < snd (fst s)
                      /\ length (snd s) = Nat.min 10 (Z.to_nat (snd (fst s))))
            sections.
Proof.
  induction by_category as [|[k l] rest IH]; intros sections H Hne.
  - injection H as <-. split; [reflexivity | constructor].
  - destruct k; try discriminate. rewrite summary_sections_cons in H.
    destruct (summary_sections rest) as [sections'|]; [|discriminate].
    injection H as <-. inversion Hne as [|g gs Hl Hrest]; subst.
    destruct (IH sections' eq_refl Hrest) as [Htotal Hall].
    split.
    + cbn [sections_total fold_right fst snd groups_total] in *.
      fold (sections_total sections'). fold (groups_total rest). lia.
    + constructor; [|assumption]. split.
      * change (0 < Z.of_nat (length l)). simpl in Hl.
        destruct l; [congruence | simpl; lia].
      * change (length (firstn 10 l) = Nat.min 10 (Z.to_nat (Z.of_nat (length l)))).
        rewrite length_firstn, Nat2Z.id. reflexivity.
Qed.

(** X16: for findings whose categories are strings or absent the summary
    has its sections; the counts the sections show add up to the number of
    findings, no section is empty, and a section lists ten findings or, when
    it has fewer, all of them. *)
Theorem summary_sections_counts (issues : list dict) :
  forallb category_is_str issues = true ->
  exists by_category sections,
    group_by_category issues [] = Ok by_category
    /\ summary_sections by_category = Ok sections
    /\ sections_total sections = Z.of_nat (length issues)
    /\ Forall (fun s => 0 < snd (fst s)
                        /\ length (snd s) = Nat.min 10 (Z.to_nat (snd (fst s))))
              sections.
Proof.
  intros Hstr.
  destruct (group_by_category_ok issues [] Hstr (Forall_nil _)) as (grouped & Hg & Hkeys).
  destruct (summary_sections_ok grouped Hkeys) as [sections Hs].
  exists grouped, sections. split; [assumption|]. split; [assumption|].
  destruct (group_by_category_total _ _ _ Hg (Forall_nil _)) as [Htotal Hne].
  destruct (summary_sections_total _ _ Hs Hne) as [Hsum Hall].
  split; [|assumption]. rewrite Hsum, Htotal. reflexivity.
Qed.

Lemma summary_sections_counts_witness :
  exists by_category sections,
    group_by_category [sample_low; [("category", JStr "security")]; sample_critical] []
    = Ok by_category
    /\ summary_sections by_category = Ok sections
    /\ sections_total sections = 3
    /\ Forall (fun s => 0 < snd (fst s)
                        /\ length (snd s) = Nat.min 10 (Z.to_nat (snd (fst s))))
              sections.
Proof.
  exact (summary_sections_counts
           [sample_low; [("category", JStr "security")]; sample_critical] eq_refl).
Defined.

End SectionFacts.

(** ** Summary report: the category figures *)

Section CategoryFacts.

Lemma insert_desc_perm {K : Type} (x : K * Z) (l : list (K * Z)) :
  Permutation (insert_desc x l) (x :: l).
Proof.
  induction l as [|y l IH]; simpl; [reflexivity|].
  destruct (snd y >? snd x); [|reflexivity].
  rewrite IH. apply perm_swap.
Qed.


Lemma insert_desc_sorted {K : Type} (x : K * Z) (l : list (K * Z)) :
  StronglySorted Z.ge (map snd l) -> StronglySorted Z.ge (map snd (insert_desc x l)).
Proof.
  induction l as [|y l IH]; intros Hs; cbn [insert_desc map].
  - repeat constructor.
  - inversion Hs as [|a m Hsorted Hall]; subst.
    destruct (Z.gtb_spec (snd y) (snd x)) as [Hgt|Hle]; cbn [map].
    + constructor; [now apply IH|].
      apply Forall_forall. intros z Hz.
      apply (Permutation_in _ (Permutation_map snd (insert_desc_perm x l))) in Hz.
      destruct Hz as [<-|Hz]; [lia|].
      rewrite Forall_forall in Hall. now apply Hall.
    + constructor; [assumption|]. constructor; [lia|].
      rewrite Forall_forall in *. intros z Hz. specialize (Hall z Hz). lia.
Qed.

Lemma sorted_desc_sorted {K : Type} (l : list (K * Z)) :
  StronglySorted Z.ge (map snd (sorted_desc l)).
Proof.
  unfold sorted_desc. induction l as [|x l IH]; cbn [fold_right].
  - constructor.
  - now apply insert_desc_sorted.
Qed.

Lemma category_lines_items (items : list (json * Z)) : forall lines,
  category_lines items = Ok lines ->
  items = map (fun line => (JStr (fst line), snd line)) lines.
Proof.
  induction items as [|[k n] rest IH]; intros lines H.
  - injection H as <-. reflexivity.
  - destruct k; try discriminate. cbn [category_lines] in H.
    destruct (category_lines rest) as [lines'|]; [|discriminate].
    injection H as <-. simpl. now rewrite <- (IH lines' eq_refl).
Qed.

(** X17: the category lines of a report are in descending order of their
    counts. *)
Theorem summary_report_descending (all_issues : list dict) (r : report) :
  summary_report all_issues = Ok r ->
  StronglySorted Z.ge (map snd (by_category r)).
Proof.
  unfold summary_report.
  destruct (count_categories all_issues []) as [counted|]; [|discriminate].
  destruct (category_lines (sorted_desc counted)) as [lines|] eqn:Hl; [|discriminate].
  intros H. injection H as <-. cbn [by_category].
  pose proof (sorted_desc_sorted counted) as Hs.
  rewrite (category_lines_items _ _ Hl), map_map in Hs. exact Hs.
Qed.

Lemma summary_report_descending_witness :
  StronglySorted Z.ge (map snd [("security", 2); ("quality", 1); ("general", 1)]).
Proof.
  exact (summary_report_descending
           [[("severity", JStr "low"); ("category", JStr "quality")];
            [("severity", JStr "high"); ("category", JStr "security")];
            [("severity", JStr "high")];
            [("severity", JStr "medium"); ("category", JStr "security")]]
           _ eq_refl).
Defined.











(** The counter of the findings above, in the order of first occurrence. *)
Example category_counter_sample :
  count_categories [[("category", JStr "security")];
                    [("category", JStr "Security")];
                    [("severity", JStr "high")];
                    [("category", JStr "security")]] []
  = Ok [(JStr "security", 2); (JStr "Security", 1); (JStr "general", 1)].
Proof. reflexivity. Qed.

End CategoryFacts.

(** ** The run: when no label or issue call is made *)

Section SilentFacts.

Variable w : world.

Lemma silent_refl (st : state) : silent st st.
Proof. exists []. split; [now rewrite app_nil_r | reflexivity]. Qed.

Lemma silent_trans (st1 st2 st3 : state) : silent st1 st2 -> silent st2 st3 -> silent st1 st3.
Proof.
  intros (e1 & H1 & Hq1) (e2 & H2 & Hq2). exists (e1 ++ e2). split.
  - now rewrite H2, H1, app_assoc.
  - now rewrite existsb_app, Hq1, Hq2.
Qed.

Lemma silent_emit (e : event) (st : state) :
  filing_call e = false -> silent st (snd (emit e st)).
Proof. intros He. exists [e]. split; [reflexivity | simpl; now rewrite He]. Qed.

Lemma init_silent (st : state) : silent st (snd (init w st)).
Proof.
  unfold init, bind, raise, ret.
  destruct (unset (env_anthropic_api_key w)); [apply silent_refl|].
  destruct (unset (env_github_token w)); [apply silent_refl|].
  cbn. destruct (connects w); now apply (silent_emit (Connect (repo_name w))).
Qed.

Lemma review_turn_silent index chunk all_issues st :
  silent st (snd (review_turn w index chunk all_issues st)).
Proof.
  unfold review_turn, bind. destruct (known_review_type w) eqn:Hknown.
  - rewrite (review_chunk_result w _ _ _ Hknown). unfold lift.
    destruct (extend all_issues (batch_result w index)); cbn.
    + exists [Request (review_type w) chunk; Sleep 5]. split; [|reflexivity].
      now rewrite <- app_assoc.
    + exists [Request (review_type w) chunk]. split; reflexivity.
  - rewrite (review_chunk_unknown w _ _ _ Hknown). apply silent_refl.
Qed.

Lemma review_all_silent (chunks : list (list SourceFile)) : forall index all_issues st,
  silent st (snd (review_all w chunks index all_issues st)).
Proof.
  induction chunks as [|chunk rest IH]; intros index all_issues st; cbn [review_all].
  - apply silent_refl.
  - unfold bind. pose proof (review_turn_silent index chunk all_issues st) as Hturn.
    destruct (review_turn w index chunk all_issues st) as [[acc|e] st1]; [|exact Hturn].
    apply silent_trans with st1; [exact Hturn | apply IH].
Qed.

Lemma generate_summary_report_silent (all_issues : list json) (st : state) :
  silent st (snd (generate_summary_report w all_issues st)).
Proof.
  unfold generate_summary_report, bind, lift.
  destruct (as_dicts all_issues) as [findings|]; [|apply silent_refl].
  destruct (summary_report findings) as [r|]; [|apply silent_refl].
  cbn. destruct (report_writable w); now apply (silent_emit (WriteReport r)).
Qed.

Lemma review_all_nothing (chunks : list (list SourceFile)) : forall index st all_issues st',
  (forall i, batch_result w i = JArr []) ->
  review_all w chunks index [] st = (Ok all_issues, st') -> all_issues = [].
Proof.
  induction chunks as [|chunk rest IH]; intros index st all_issues st' Hnone H.
  - now injection H as <- _.
  - cbn [review_all] in H. unfold bind in H.
    destruct (review_turn w index chunk [] st) as [[acc|e] st1] eqn:Hturn; [|discriminate].
    destruct (review_turn_ok _ _ _ _ _ _ _ Hturn) as (_ & Hext & _).
    rewrite Hnone in Hext. injection Hext as <-. eauto.
Qed.

Lemma chunk_files_some (files : list SourceFile) (max_tokens : Z) :
  files <> [] -> Batcher.chunk_files_for_review files max_tokens <> [].
Proof.
  intros Hne Hnil. apply Hne.
  destruct files as [|f files]; [reflexivity|].
  destruct (proj1 (chunk_files_In (f :: files) max_tokens f) (or_introl eq_refl))
    as (batch & Hin & _).
  rewrite Hnil in Hin. destruct Hin.
Qed.

(** [run], stage by stage. *)
Lemma run_stages (st : state) :
  run w st
  = match review_all w (Batcher.chunk_files_for_review (codebase w)
                          Batcher.default_max_tokens) 0 [] (snd (emit Walk st)) with
    | (Raise e, st2) => (Raise e, st2)
    | (Ok all_issues, st2) =>
        match generate_summary_report w all_issues st2 with
        | (Raise e, st3) => (Raise e, st3)
        | (Ok _, st3) =>
            match all_issues with
            | [] => (Ok tt, st3)
            | _ :: _ =>
                match create_github_issues w all_issues st3 with
                | (Ok _, st4) => (Ok tt, st4)
                | (Raise e, st4) => (Raise e, st4)
                end
            end
        end
    end.
Proof.
  unfold run, bind, get_codebase_files, bind, ret. cbn [emit snd].
  destruct (review_all w _ 0%nat [] _) as [[all_issues|e] st2]; [|reflexivity].
  destruct (generate_summary_report w all_issues st2) as [[[]|e] st3]; [|reflexivity].
  destruct all_issues; reflexivity.
Qed.

End SilentFacts.

(** X19: when no batch yields a finding (each request raises, or its
    response gives the empty list) the process looks up no label, creates
    no label and creates no issue. *)
Theorem no_findings_no_tracker_call (w : world) :
  (forall index, batch_result w index = JArr []) ->
  existsb filing_call (snd (main w)) = false.
Proof.
  intros Hnone.
  assert (silent initial_state (snd ((init w ;; run w)%monad initial_state))) as Hsilent.
  { unfold bind. pose proof (init_silent w initial_state) as Hinit.
    destruct (init w initial_state) as [[[]|e] st0]; [|exact Hinit].
    apply silent_trans with st0; [exact Hinit|]. rewrite run_stages.
    pose proof (silent_emit Walk st0 eq_refl) as Hwalk.
    apply silent_trans with (snd (emit Walk st0)); [exact Hwalk|].
    match goal with
    | |- context [review_all w ?c 0%nat [] ?s] =>
        pose proof (review_all_silent w c 0%nat [] s) as Hrev;
        destruct (review_all w c 0%nat [] s) as [[all_issues|e] st2] eqn:Hall
    end; [|exact Hrev].
    apply (review_all_nothing w _ _ _ _ _ Hnone) in Hall. subst all_issues.
    apply silent_trans with st2; [exact Hrev|].
    pose proof (generate_summary_report_silent w [] st2) as Hgen.
    destruct (generate_summary_report w [] st2) as [[[]|e] st3]; exact Hgen. }
  unfold main. destruct ((init w ;; run w)%monad initial_state) as [[[]|e] st];
    destruct Hsilent as (events & Htrace & Hquiet);
    cbn [snd] in *; rewrite Htrace; exact Hquiet.
Qed.

Lemma no_findings_no_tracker_call_witness :
  existsb filing_call (snd (main failing_world)) = false.
Proof.
  apply no_findings_no_tracker_call.
  intros [|[|index]]; reflexivity.
Defined.

(** X20: when the report file cannot be written the process exits with
    status 1 and has looked up no label, created no label and created no
    issue, whatever was found. *)
Theorem unwritable_report_aborts (w : world) :
  report_writable w = false ->
  fst (main w) = 1 /\ existsb filing_call (snd (main w)) = false.
Proof.
  intros Hw.
  assert (exists e st, (init w ;; run w)%monad initial_state = (Raise e, st)
                       /\ silent initial_state st) as (e & st & Hrun & Hsilent).
  { unfold bind. pose proof (init_silent w initial_state) as Hinit.
    destruct (init w initial_state) as [[[]|e] st0]; [|eauto].
    rewrite run_stages.
    pose proof (silent_emit Walk st0 eq_refl) as Hwalk.
    match goal with
    | |- context [review_all w ?c 0%nat [] ?s] =>
        pose proof (review_all_silent w c 0%nat [] s) as Hrev;
        destruct (review_all w c 0%nat [] s) as [[all_issues|e] st2]
    end.
    - pose proof (generate_summary_report_silent w all_issues st2) as Hgen.
      assert (exists e st3, generate_summary_report w all_issues st2 = (Raise e, st3))
        as (e & st3 & Hraise).
      { unfold generate_summary_report, bind, lift, emit, raise.
        destruct (as_dicts all_issues) as [findings|]; [|eauto].
        destruct (summary_report findings) as [r|]; [|eauto].
        rewrite Hw. eauto. }
      rewrite Hraise in *. exists e, st3. split; [reflexivity|].
      eauto using silent_trans.
    - exists e, st2. split; [reflexivity|]. eauto using silent_trans. }
  unfold main. rewrite Hrun. destruct Hsilent as (events & Htrace & Hquiet).
  cbn [fst snd]. split; [reflexivity|]. rewrite Htrace. exact Hquiet.
Qed.

Lemma unwritable_report_aborts_witness :
  let w := {| env_anthropic_api_key := Some "key";
              env_github_token := Some "token";
              env_review_type := None;
              env_github_repository := None;
              connects := true;
              codebase := [sample_file];
              api := fun _ => ApiText sample_response;
              json_loads := sample_json_loads;
              report_writable := false;
              tracker_ok := fun _ => true |} in
  fst (main w) = 1 /\ existsb filing_call (snd (main w)) = false.
Proof.
  cbv zeta. apply unwritable_report_aborts. reflexivity.
Defined.

(** X21: with both credentials, a repository that answers and at least
    one file collected, a review type that is none of the five ends the
    process with status 1 before any request is sent: the only calls are
    the connection and the walk. *)
Theorem unknown_review_type_aborts (w : world) :
  unset (env_anthropic_api_key w) = false ->
  unset (env_github_token w) = false ->
  connects w = true ->
  codebase w <> [] ->
  known_review_type w = false ->
  main w = (1, [Connect (repo_name w); Walk]).
Proof.
  intros Hkey Htoken Hconnects Hfiles Hunknown.
  unfold main, bind, init. rewrite Hkey, Htoken. unfold bind, emit, ret.
  rewrite Hconnects. rewrite run_stages.
  pose proof (chunk_files_some (codebase w) Batcher.default_max_tokens Hfiles) as Hchunks.
  destruct (Batcher.chunk_files_for_review (codebase w) Batcher.default_max_tokens)
    as [|chunk rest]; [congruence|].
  cbn [review_all]. unfold bind, review_turn, bind.
  rewrite (review_chunk_unknown w _ _ _ Hunknown). reflexivity.
Qed.

Lemma unknown_review_type_aborts_witness :
  let w := {| env_anthropic_api_key := Some "key";
              env_github_token := Some "token";
              env_review_type := Some "style";
              env_github_repository := Some "owner/repo";
              connects := true;
              codebase := [sample_file];
              api := fun _ => ApiText sample_response;
              json_loads := sample_json_loads;
              report_writable := true;
              tracker_ok := fun _ => true |} in
  main w = (1, [Connect "owner/repo"; Walk]).
Proof.
  cbv zeta. apply unknown_review_type_aborts; try reflexivity. discriminate.
Defined.

(** ** Batcher: the budget, measured on the contents *)

Section BudgetMeasures.
Import Batcher.

Lemma floor_estimate_tokens (batch : list SourceFile) :
  floor_estimate batch = batch_tokens batch.
Proof. induction batch as [|f batch IH]; simpl; [reflexivity | now rewrite IH]. Qed.

Lemma ceil_estimate_floor (batch : list SourceFile) :
  floor_estimate batch <= ceil_estimate batch <= floor_estimate batch + Z.of_nat (length batch).
Proof.
  induction batch as [|f batch IH]; [simpl; lia|].
  cbn [floor_estimate ceil_estimate fold_right length].
  fold (floor_estimate batch). fold (ceil_estimate batch).
  assert (len (content f) / 4 <= ceil_div4 (len (content f)) <= len (content f) / 4 + 1).
  { unfold ceil_div4. split.
    - apply Z.div_le_mono; lia.
    - replace (len (content f) / 4 + 1) with ((len (content f) + 1 * 4) / 4)
        by (rewrite Z.div_add; lia).
      apply Z.div_le_mono; lia. }
  lia.
Qed.

Lemma batch_chars_floor (batch : list SourceFile) :
  4 * floor_estimate batch <= batch_chars batch
  <= 4 * floor_estimate batch + 3 * Z.of_nat (length batch).
Proof.
  induction batch as [|f batch IH]; [simpl; lia|].
  cbn [floor_estimate batch_chars fold_right length].
  fold (floor_estimate batch). fold (batch_chars batch).
  pose proof (Z.div_mod (len (content f)) 4 ltac:(lia)).
  pose proof (Z.mod_pos_bound (len (content f)) 4 ltac:(lia)).
  lia.
Qed.

(** C4, as the specification states it, fails: with the budget 2, three
    files of five characters are batched two and one; the batch of two has
    the estimate [ceil(5 / 4) + ceil(5 / 4)], which is 4 and over the
    budget. *)
Lemma ceil_estimate_over_budget :
  let a := file_of_length "a.py" 5 in
  let b := file_of_length "b.py" 5 in
  let c := file_of_length "c.py" 5 in
  chunk_files_for_review [a; b; c] 2 = [[a; b]; [c]]
  /\ ceil_estimate [a; b] = 4
  /\ floor_estimate [a; b] = 2.
Proof. cbv zeta. repeat split. Qed.

(** C4, amended: a batch of two or more files is within the budget in the
    sum of [floor(length / 4)] over its files; so the sum of
    [ceil(length / 4)] is at most the budget plus the number of its files,
    and its characters are at most four times the budget plus three per
    file.  A batch over the budget in the floor sum has exactly one file,
    and a file whose [floor(length / 4)] alone is over the budget is a batch
    of its own. *)
Theorem chunk_files_budget_measures (files : list SourceFile) (max_tokens : Z) :
  let batches := chunk_files_for_review files max_tokens in
  (forall batch, In batch batches -> (2 <= length batch)%nat ->
     floor_estimate batch <= max_tokens
     /\ ceil_estimate batch <= max_tokens + Z.of_nat (length batch)
     /\ batch_chars batch <= 4 * max_tokens + 3 * Z.of_nat (length batch))
  /\ (forall batch, In batch batches -> floor_estimate batch > max_tokens ->
        length batch = 1%nat)
  /\ (forall f, In f files -> len (content f) / 4 > max_tokens -> In [f] batches).
Proof.
  cbv zeta. destruct (chunk_files_budget files max_tokens) as (Hmany & Hone & Hbig).
  split; [|split].
  - intros batch Hin H2. specialize (Hmany batch Hin H2).
    rewrite <- floor_estimate_tokens in Hmany.
    pose proof (ceil_estimate_floor batch). pose proof (batch_chars_floor batch). lia.
  - intros batch Hin Hover. apply Hone; [assumption|].
    now rewrite <- floor_estimate_tokens.
  - intros f Hin Hover. now apply Hbig.
Qed.

End BudgetMeasures.
